(** * heoplatform/vite-plugin: dependency resolver and plugin lifecycle

    A shallow embedding of [src/preload.ts] (the preload dependency
    resolver) and of the current [src/index.ts] (the plugin lifecycle
    orchestrator), with the properties the specification states about
    them and further properties read off the code. *)

From Stdlib Require Import String Ascii List Arith Bool Lia.
From stdpp Require Import gmap strings list pretty.

Set Warnings "-clear-no-such-hyp".

(** ** JavaScript values used by the sources *)

(** Exceptions the modelled code can raise. *)
Inductive JSError : Type :=
  | TypeError (msg : string)
  | SyntaxError (msg : string)
  | ENOENT (path : string)
  | Thrown (msg : string).

(** The outcome of a call that either returns or raises. *)
Inductive Result (A : Type) : Type :=
  | Ok (a : A)
  | Throw (e : JSError).
Arguments Ok {A} a.
Arguments Throw {A} e.

(** ** String primitives ([String.prototype]) *)

(** Strings are sequences of code units.  Every pattern the sources search
    for is made of ASCII characters, so positions and pieces do not depend
    on how the other characters are encoded. *)

Module JS.

Definition startsWith (p s : string) : bool := String.prefix p s.

(** [s.includes(p)] *)
Fixpoint includes (p s : string) : bool :=
  String.prefix p s ||
  match s with
  | EmptyString => false
  | String _ s' => includes p s'
  end.

(** [s.lastIndexOf(p)], scanning a suffix of [s] that starts at index [i];
    [None] stands for [-1]. *)
Fixpoint lastIndexOf_from (p s : string) (i : nat) : option nat :=
  match s with
  | EmptyString => if String.prefix p s then Some i else None
  | String _ s' =>
      match lastIndexOf_from p s' (S i) with
      | Some j => Some j
      | None => if String.prefix p s then Some i else None
      end
  end.

Definition lastIndexOf (p s : string) : option nat := lastIndexOf_from p s 0.

(** [s.substring(n)] and [s.slice(n)] for [0 <= n]. *)
Fixpoint substring (n : nat) (s : string) : string :=
  match n, s with
  | 0, _ => s
  | S n', String _ s' => substring n' s'
  | S _, EmptyString => EmptyString
  end.

(** [s.split(sep)] for a non-empty separator.  [skip] counts the
    characters of a separator occurrence that are still to be passed
    over; the head of the result is the piece being read. *)
Fixpoint split_aux (sep : string) (skip : nat) (s : string) : list string :=
  match s with
  | EmptyString => [EmptyString]
  | String c s' =>
      match skip with
      | S k => split_aux sep k s'
      | 0 =>
          if String.prefix sep s
          then EmptyString :: split_aux sep (String.length sep - 1) s'
          else match split_aux sep 0 s' with
               | [] => [String c EmptyString]
               | p :: ps => String c p :: ps
               end
      end
  end.

Definition split (sep s : string) : list string := split_aux sep 0 s.

(** [parts.join(sep)] *)
Definition join (sep : string) (parts : list string) : string :=
  String.concat sep parts.

(** Truthiness of a possibly absent string: [null], [undefined] and the
    empty string are falsy. *)
Definition truthy (o : option string) : bool :=
  match o with
  | Some s => negb (String.eqb s "")
  | None => false
  end.

End JS.

(** ** [path.posix] of the host *)

(** [path.join] and [path.normalize] as Node defines them for POSIX paths
    (the repository's tests pin [path.join] to [path.posix.join]). *)

Module Path.

(** One step of [normalizeString]: the stack holds the segments kept so
    far, last one first. *)
Definition normStep (allowAboveRoot : bool) (stack : list string) (seg : string)
  : list string :=
  if String.eqb seg "" || String.eqb seg "." then stack
  else if String.eqb seg ".." then
    match stack with
    | top :: rest =>
        if String.eqb top ".."
        then (if allowAboveRoot then seg :: stack else stack)
        else rest
    | [] => if allowAboveRoot then [seg] else []
    end
  else seg :: stack.

Definition normalizeString (path : string) (allowAboveRoot : bool) : string :=
  JS.join "/" (rev (fold_left (normStep allowAboveRoot) (JS.split "/" path) [])).

(** [path.charCodeAt(path.length - 1) === CHAR_FORWARD_SLASH] *)
Fixpoint endsWithSlash (s : string) : bool :=
  match s with
  | EmptyString => false
  | String c EmptyString => Ascii.eqb c "/"
  | String _ s' => endsWithSlash s'
  end.

Definition normalize (path : string) : string :=
  if String.eqb path "" then "."
  else
    let isAbsolute := JS.startsWith "/" path in
    let trailingSeparator := endsWithSlash path in
    let p := normalizeString path (negb isAbsolute) in
    if String.eqb p "" then
      (if isAbsolute then "/" else if trailingSeparator then "./" else ".")
    else
      let p' := if trailingSeparator then p +:+ "/" else p in
      if isAbsolute then "/" +:+ p' else p'.

Definition join (args : list string) : string :=
  match List.filter (fun a => negb (String.eqb a "")) args with
  | [] => "."
  | parts => normalize (JS.join "/" parts)
  end.

End Path.

(** ** [src/preload.ts] *)

(** *** The manifest, read when the module is loaded *)

(** The text of [.vite/dist/client/.vite/ssr-manifest.json] is represented
    by what the host's [JSON.parse] makes of it: either it raises a
    [SyntaxError], or it yields the entries of the object in their order of
    appearance ([Record<string, string[]>] in the source). *)
Inductive JSONText : Type :=
  | Malformed (raw : string)
  | ObjectText (entries : list (string * list string)).

Definition JSON_parse (t : JSONText) : Result (list (string * list string)) :=
  match t with
  | Malformed raw => Throw (SyntaxError raw)
  | ObjectText entries => Ok entries
  end.

(** [Object.fromEntries]: a later entry overwrites an earlier one. *)
Definition fromEntries (entries : list (string * list string))
  : gmap string (list string) :=
  fold_left (fun m kv => <[kv.1 := kv.2]> m) entries ∅.

(** [manifest]: the file's text when the file exists, ["{}"] otherwise. *)
Definition manifest (file : option JSONText) : JSONText :=
  match file with
  | Some t => t
  | None => ObjectText []
  end.

(** [manifestJson]: evaluated once, at module load; an exception here makes
    the import of the module fail. *)
Definition manifestJson (cwd : string) (file : option JSONText)
  : Result (gmap string (list string)) :=
  match JSON_parse (manifest file) with
  | Throw e => Throw e
  | Ok entries =>
      Ok (fromEntries (map (fun kv => (Path.join [cwd; ".vite"; kv.1], kv.2)) entries))
  end.

(** What loading the module leaves behind: the binding [manifestJson] and
    the lines written with [console.warn] while loading. *)
Record PreloadModule : Type := {
  pm_manifestJson : gmap string (list string);
  pm_warnings : list string
}.

Definition loadPreloadModule (cwd : string) (file : option JSONText)
  : Result PreloadModule :=
  match manifestJson cwd file with
  | Throw e => Throw e
  | Ok m => Ok {| pm_manifestJson := m; pm_warnings := [] |}
  end.

(** *** The development module graph *)

(** A [ModuleNode] as the resolver reads it: its [id] (field [node_id],
    [None] for [null]) and the [id]s of the nodes in [importedModules], in
    iteration order. *)
Record ModuleNode : Type := {
  node_id : option string;
  importedModules : list (option string)
}.

(** The graph of the dev server: the map behind [getModuleById], and the
    keys on which the backend raises instead of answering. *)
Record ModuleGraph : Type := {
  idToModuleMap : gmap string ModuleNode;
  lookupThrows : string -> option JSError
}.

Definition getModuleById (g : ModuleGraph) (k : string) : Result (option ModuleNode) :=
  match lookupThrows g k with
  | Some e => Throw e
  | None => Ok (idToModuleMap g !! k)
  end.

(** A [Set<string>] is the list of its elements in insertion order. *)
Definition set_has (x : string) (s : list string) : bool :=
  bool_decide (x ∈ s).

Definition set_add (x : string) (s : list string) : list string :=
  if set_has x s then s else s ++ [x].

(** [new Set(l)] followed by spreading: first occurrences, in order. *)
Definition set_from (l : list string) : list string :=
  fold_left (fun s x => set_add x s) l [].

(** The [for (const dep of mod.importedModules)] loop of [collectDepsDev],
    over the recursive call [rec].  The outer [option] is [None] when the
    model ran out of fuel. *)
Fixpoint forEachDep (rec : string -> list string -> option (Result (list string)))
    (deps : list (option string)) (seen : list string)
  : option (Result (list string)) :=
  match deps with
  | [] => Some (Ok seen)
  | dep :: rest =>
      if JS.truthy dep then
        match rec (default "" dep) seen with
        | Some (Ok seen') => forEachDep rec rest seen'
        | other => other
        end
      else forEachDep rec rest seen
  end.

Fixpoint collectDepsDev_fuel (fuel : nat) (g : ModuleGraph) (entryId : string)
    (seen : list string) : option (Result (list string)) :=
  match fuel with
  | 0 => None
  | S fuel' =>
      match getModuleById g entryId with
      | Throw e => Some (Throw e)
      | Ok None => Some (Ok seen)
      | Ok (Some node) =>
          if negb (JS.truthy (node_id node)) then Some (Ok seen)
          else
            let mid := default "" (node_id node) in
            if set_has mid seen then Some (Ok seen)
            else forEachDep (collectDepsDev_fuel fuel' g) (importedModules node)
                            (seen ++ [mid])
      end
  end.

(** Every call that gets past the guards adds an identifier of the map
    that was not seen before, so the depth of the recursion never exceeds
    the size of the map. *)
Definition collectDepsDev (g : ModuleGraph) (entryId : string) (seen : list string)
  : option (Result (list string)) :=
  collectDepsDev_fuel (S (size (idToModuleMap g))) g entryId seen.

(** *** URL rewriting *)

Definition extractPackageName (filePath : string) : option string :=
  match JS.lastIndexOf "node_modules/" filePath with
  | None => None
  | Some nodeModulesIndex =>
      let afterNodeModules :=
        JS.substring (nodeModulesIndex + String.length "node_modules/") filePath in
      let parts := JS.split "/" afterNodeModules in
      let parts0 := hd "" parts in
      if JS.startsWith "@" parts0 then
        match parts with
        | _ :: parts1 :: _ => Some (parts0 +:+ "_" +:+ parts1)
        | _ => Some parts0
        end
      else Some parts0
  end.

Definition getOptimizedUrl (id : string) : string :=
  if JS.startsWith "/@id/" id || JS.startsWith "/@fs/" id
     || JS.startsWith "/node_modules/.vite/deps/" id
  then id
  else
    let viaFs := Path.join ["/@fs/"; id] in
    if JS.includes "node_modules" id && negb (JS.includes ".vite/deps" id) then
      if JS.truthy (extractPackageName id)
      then "/node_modules/.vite/deps/" +:+ default "" (extractPackageName id) +:+ ".js"
      else viaFs
    else viaFs.

(** *** [getDeps] *)

(** A development server as far as this repository uses it. *)
Record ViteDevServer : Type := {
  moduleGraph : ModuleGraph;
  transformIndexHtml : string -> string -> Result string
}.

Definition normalizeModule (module : string) : string :=
  if JS.startsWith "/@fs/" module then JS.substring 4 module
  else if JS.startsWith "file://" module then JS.substring 7 module
  else module.

(** A line of [console.warn]: the message and the error passed with it. *)
Definition Warning : Type := (string * JSError)%type.

(** One iteration of [for (const module of modules)]: [deps] and the
    warnings written so far go in and come out.  [manifestJson[module]] is
    a lookup among the keys of the manifest: entries are module paths, not
    names inherited from [Object.prototype]. *)
Definition getDepsStep (manifestJson : gmap string (list string))
    (viteDevServer : option ViteDevServer) (isProduction : bool)
    (st : list string * list Warning) (module : string)
  : option (list string * list Warning) :=
  let '(deps, warns) := st in
  if isProduction then
    match manifestJson !! module with
    | Some manifestModules => Some (deps ++ manifestModules, warns)
    | None => Some (deps, warns)
    end
  else
    match viteDevServer with
    | Some srv =>
        match collectDepsDev (moduleGraph srv) module [] with
        | None => None
        | Some (Ok depsDev) =>
            if 0 <? length depsDev
            then Some (deps ++ map getOptimizedUrl depsDev, warns)
            else Some (deps, warns)
        | Some (Throw error) =>
            Some (deps,
                  warns ++ [("Failed to collect dependencies for " +:+ module +:+ ":",
                             error)])
        end
    | None => Some (deps, warns)
    end.

Fixpoint getDepsLoop (manifestJson : gmap string (list string))
    (viteDevServer : option ViteDevServer) (isProduction : bool)
    (modules : list string) (st : list string * list Warning)
  : option (list string * list Warning) :=
  match modules with
  | [] => Some st
  | module :: rest =>
      match getDepsStep manifestJson viteDevServer isProduction st module with
      | None => None
      | Some st' => getDepsLoop manifestJson viteDevServer isProduction rest st'
      end
  end.

(** [getDeps(modules, viteDevServer?, isProduction = false)]: the returned
    list and the warnings written.  [None] only if a traversal ran out of
    fuel (it never does, see [getDeps_total]). *)
Definition getDeps (manifestJson : gmap string (list string))
    (modules : list string) (viteDevServer : option ViteDevServer)
    (isProduction : bool) : option (list string * list Warning) :=
  match getDepsLoop manifestJson viteDevServer isProduction
          (map normalizeModule modules) ([], []) with
  | None => None
  | Some (deps, warns) => Some (set_from deps, warns)
  end.

(** ** [src/index.ts] *)

(** *** Configuration *)

(** The fields of vite's [InlineConfig] that the orchestrator sets.
    [build_rollupOptions_input] is [[]] when [rollupOptions] has no [input],
    [build_outDir] is [None] when [build] has no [outDir]. *)
Record InlineConfig : Type := {
  server_middlewareMode : bool;
  appType : string;
  root : string;
  base : string;
  build_rollupOptions_input : list string;
  build_outDir : option string;
  build_target : string;
  build_ssrManifest : bool;
  build_ssr : bool;
  optimizeDeps_exclude : list string;
  config_plugins : list string
}.

Record VitePluginConfig : Type := {
  config : InlineConfig;
  clientPluginModules : list string;
  serverPluginModules : list string
}.

(** *** Plugins *)

(** What calling a hook of a plugin does, as far as the orchestrator can
    tell: it returns ([None]) or raises.  Hooks are code of the plugins;
    they are taken to cooperate, that is, to leave the shared plugin list
    and the markers alone. *)
Definition HookOutcome : Type := option JSError.

(** A plugin object.  A hook that is absent is [None]; [_vitePlugin] is the
    truthiness of the marker property. *)
Record Plugin : Type := {
  name : string;
  port : option N;
  _vitePlugin : bool;
  configureVite : option (VitePluginConfig -> Result VitePluginConfig);
  initVite : option HookOutcome;
  postInitVite : option HookOutcome;
  init : option HookOutcome;
  postInit : option HookOutcome
}.

(** Objects live in a heap and the shared plugin list holds references, so
    that tagging an instance is seen through every alias. *)
Definition Ref : Type := nat.

Inductive Middleware : Type :=
  | ViteMiddlewares
  | Compression
  | Sirv (dir : string).

(** Calls to the collaborators of the orchestrator, in the order made. *)
Inductive Event : Type :=
  | EvMaterialize (server client : list string)
  | EvBuild (c : InlineConfig)
  | EvCreateServer (c : InlineConfig)
  | EvRouterUse (m : Middleware)
  | EvAppUseRouter
  | EvStop
  | EvInit (r : Ref)
  | EvPostInit (r : Ref)
  | EvInitVite (r : Ref)
  | EvPostInitVite (r : Ref).

(** The process around the orchestrator: the flags read from its
    arguments, its working directory, the bundler ([build],
    [createServer]) and the module loaders ([vite.ssrLoadModule] of the
    running server and the dynamic [import]).  A registry module is
    represented by the plugin objects its default export returns when
    called; they are new objects at every call. *)
Record Host : Type := {
  args_build : bool;
  args_preview : bool;
  cwd : string;
  build : InlineConfig -> Result unit;
  createServer : InlineConfig -> Result ViteDevServer;
  ssrLoadModule : string -> Result (list Plugin);
  dynamicImport : string -> Result (list Plugin)
}.

(** The variables closed over by [vitePlugin()], the heap of plugin
    objects, the files under the working directory and the trace. *)
Record World : Type := {
  plugins : list Ref;
  heap : gmap Ref Plugin;
  nextRef : Ref;
  vite : option ViteDevServer;
  isProduction : bool;
  templateHtmlPromise : option (Result string);
  initVite_port : option N;
  dirs : gset string;
  files : gmap string string;
  trace : list Event
}.

Definition set_plugins (f : list Ref -> list Ref) (w : World) : World :=
  {| plugins := f (plugins w); heap := heap w; nextRef := nextRef w; vite := vite w;
     isProduction := isProduction w; templateHtmlPromise := templateHtmlPromise w;
     initVite_port := initVite_port w; dirs := dirs w; files := files w;
     trace := trace w |}.

Definition set_heap (f : gmap Ref Plugin -> gmap Ref Plugin) (w : World) : World :=
  {| plugins := plugins w; heap := f (heap w); nextRef := nextRef w; vite := vite w;
     isProduction := isProduction w; templateHtmlPromise := templateHtmlPromise w;
     initVite_port := initVite_port w; dirs := dirs w; files := files w;
     trace := trace w |}.

Definition set_nextRef (n : Ref) (w : World) : World :=
  {| plugins := plugins w; heap := heap w; nextRef := n; vite := vite w;
     isProduction := isProduction w; templateHtmlPromise := templateHtmlPromise w;
     initVite_port := initVite_port w; dirs := dirs w; files := files w;
     trace := trace w |}.

Definition set_vite (v : option ViteDevServer) (w : World) : World :=
  {| plugins := plugins w; heap := heap w; nextRef := nextRef w; vite := v;
     isProduction := isProduction w; templateHtmlPromise := templateHtmlPromise w;
     initVite_port := initVite_port w; dirs := dirs w; files := files w;
     trace := trace w |}.

Definition set_isProduction (b : bool) (w : World) : World :=
  {| plugins := plugins w; heap := heap w; nextRef := nextRef w; vite := vite w;
     isProduction := b; templateHtmlPromise := templateHtmlPromise w;
     initVite_port := initVite_port w; dirs := dirs w; files := files w;
     trace := trace w |}.

Definition set_templateHtmlPromise (t : option (Result string)) (w : World) : World :=
  {| plugins := plugins w; heap := heap w; nextRef := nextRef w; vite := vite w;
     isProduction := isProduction w; templateHtmlPromise := t;
     initVite_port := initVite_port w; dirs := dirs w; files := files w;
     trace := trace w |}.

Definition set_initVite_port (p : option N) (w : World) : World :=
  {| plugins := plugins w; heap := heap w; nextRef := nextRef w; vite := vite w;
     isProduction := isProduction w; templateHtmlPromise := templateHtmlPromise w;
     initVite_port := p; dirs := dirs w; files := files w; trace := trace w |}.

Definition set_fs (d : gset string) (f : gmap string string) (w : World) : World :=
  {| plugins := plugins w; heap := heap w; nextRef := nextRef w; vite := vite w;
     isProduction := isProduction w; templateHtmlPromise := templateHtmlPromise w;
     initVite_port := initVite_port w; dirs := d; files := f; trace := trace w |}.

Definition add_event (e : Event) (w : World) : World :=
  {| plugins := plugins w; heap := heap w; nextRef := nextRef w; vite := vite w;
     isProduction := isProduction w; templateHtmlPromise := templateHtmlPromise w;
     initVite_port := initVite_port w; dirs := dirs w; files := files w;
     trace := trace w ++ [e] |}.

(** *** Computations that change the world and may raise *)

Definition M (A : Type) : Type := World -> Result A * World.

Definition ret {A} (a : A) : M A := fun w => (Ok a, w).
Definition raise {A} (e : JSError) : M A := fun w => (Throw e, w).
Definition bind {A B} (c : M A) (k : A -> M B) : M B :=
  fun w => match c w with
           | (Ok a, w') => k a w'
           | (Throw e, w') => (Throw e, w')
           end.
Definition get : M World := fun w => (Ok w, w).
Definition modify (f : World -> World) : M unit := fun w => (Ok tt, f w).
Definition emit (e : Event) : M unit := modify (add_event e).
Definition lift {A} (r : Result A) : M A := fun w => (r, w).

Notation "x <- c ;; k" := (bind c (fun x => k))
  (at level 100, c at next level, right associativity).
Notation "c ;;; k" := (bind c (fun _ => k))
  (at level 100, right associativity).

(** [for (const x of xs) { await body(x) }] *)
Fixpoint forEach {A} (xs : list A) (body : A -> M unit) : M unit :=
  match xs with
  | [] => ret tt
  | x :: rest => body x ;;; forEach rest body
  end.

(** Calling a hook: the call is recorded, then it returns or raises. *)
Definition callHook (e : Event) (h : HookOutcome) : M unit :=
  emit e ;;;
  match h with
  | None => ret tt
  | Some err => raise err
  end.

(** *** The scaffold files *)

Definition dq : string := String "034"%char EmptyString.
Definition nl : string := String "010"%char EmptyString.

Definition indexHtml : string :=
  "<!DOCTYPE html>" +:+ nl +:+
  "<html lang=" +:+ dq +:+ "en" +:+ dq +:+ ">" +:+ nl +:+
  "  <head>" +:+ nl +:+
  "    <!--app-head-->" +:+ nl +:+
  "    <script type=" +:+ dq +:+ "module" +:+ dq +:+ " src=" +:+ dq +:+ "/client.ts"
    +:+ dq +:+ "></script>" +:+ nl +:+
  "  </head>" +:+ nl +:+
  "  <body>" +:+ nl +:+
  "    <div id=" +:+ dq +:+ "app" +:+ dq +:+ "><!--app-html--></div>" +:+ nl +:+
  "  </body>" +:+ nl +:+
  "</html>".

(** [Object.fromEntries(modules.map((p, i) => ["plugin" + i, p]))]; the keys
    are distinct, so the entries keep the order of [modules]. *)
Definition moduleMap (modules : list string) : list (string * string) :=
  imap (fun i p => ("plugin" +:+ pretty i, p)) modules.

Definition importLines (m : list (string * string)) : string :=
  JS.join nl (map (fun kv => "import " +:+ kv.1 +:+ " from '" +:+ kv.2 +:+ "';") m).

Definition factoryCalls (m : list (string * string)) : string :=
  JS.join ", " (map (fun kv => kv.1 +:+ "()") m).

Definition serverTs (serverPluginModules : list string) : string :=
  let serverModuleMap := moduleMap serverPluginModules in
  importLines serverModuleMap +:+ nl +:+ nl +:+
  "const getServerPlugins = () => [" +:+ factoryCalls serverModuleMap +:+ "];"
    +:+ nl +:+ nl +:+ nl +:+
  "export default getServerPlugins;".

Definition clientPluginsTs (clientPluginModules : list string) : string :=
  let clientModuleMap := moduleMap clientPluginModules in
  importLines clientModuleMap +:+ nl +:+ nl +:+
  "const getClientPlugins = () => [" +:+ factoryCalls clientModuleMap +:+ "];"
    +:+ nl +:+ nl +:+
  "export default getClientPlugins;".

Definition clientTs : string :=
  "import { initPlugins } from '@heoplatform/base-plugin-system';" +:+ nl +:+
  "import getClientPlugins from './clientPlugins.ts';" +:+ nl +:+
  "initPlugins(getClientPlugins());".

Definition viteDir : string := "./.vite".

Definition createViteEnvironment (serverPluginModules clientPluginModules : list string)
  : M unit :=
  modify (fun w =>
    set_fs ({[viteDir]} ∪ dirs w)
      (<[viteDir +:+ "/server.ts" := serverTs serverPluginModules]>
       (<[viteDir +:+ "/clientPlugins.ts" := clientPluginsTs clientPluginModules]>
        (<[viteDir +:+ "/client.ts" := clientTs]>
         (<[viteDir +:+ "/index.html" := indexHtml]>
          (<[viteDir +:+ "/vite.config.js" := "export default {}"]> (files w))))))
      w) ;;;
  emit (EvMaterialize serverPluginModules clientPluginModules).

(** *** Building the configuration *)

(** [for (const hook of configureViteHooks) viteConfig = await hook(viteConfig)] *)
Fixpoint applyHooks (configureViteHooks : list (VitePluginConfig -> Result VitePluginConfig))
    (viteConfig : VitePluginConfig) : Result VitePluginConfig :=
  match configureViteHooks with
  | [] => Ok viteConfig
  | hook :: rest =>
      match hook viteConfig with
      | Ok viteConfig' => applyHooks rest viteConfig'
      | Throw e => Throw e
      end
  end.

Definition devConfig : VitePluginConfig :=
  {| config := {| server_middlewareMode := true;
                  appType := "custom";
                  root := "./.vite";
                  base := "/";
                  build_rollupOptions_input := [];
                  build_outDir := None;
                  build_target := "esnext";
                  build_ssrManifest := false;
                  build_ssr := false;
                  optimizeDeps_exclude := ["express"; "@heoplatform/vite-plugin"];
                  config_plugins := ["vite-plugin-reload"] |};
     clientPluginModules := [];
     serverPluginModules := [] |}.

Definition getViteDevConfig
    (configureViteHooks : list (VitePluginConfig -> Result VitePluginConfig))
  : Result VitePluginConfig :=
  applyHooks configureViteHooks devConfig.

Definition prodConfig (ssr : bool) : VitePluginConfig :=
  {| config := {| server_middlewareMode := false;
                  appType := "custom";
                  root := "./.vite";
                  base := "/";
                  build_rollupOptions_input :=
                    if ssr
                    then ["./.vite/server.ts"; "./.vite/client.ts"; "./.vite/clientPlugins.ts"]
                    else [];
                  build_outDir := Some (if ssr then "./dist/server" else "./dist/client");
                  build_target := "esnext";
                  build_ssrManifest := negb ssr;
                  build_ssr := ssr;
                  optimizeDeps_exclude := ["express"];
                  config_plugins := [] |};
     clientPluginModules := [];
     serverPluginModules := [] |}.

Definition getViteProdConfig (ssr : bool)
    (configureViteHooks : list (VitePluginConfig -> Result VitePluginConfig))
  : Result VitePluginConfig :=
  applyHooks configureViteHooks (prodConfig ssr).

(** *** [vitePlugin()] *)

Definition present {A} (o : option A) : bool :=
  match o with Some _ => true | None => false end.

Definition pluginHasViteHooks (plugin : Plugin) : bool :=
  present (configureVite plugin) || present (initVite plugin).

(** The closure variables as [vitePlugin()] leaves them, in a process with
    the given [NODE_ENV], heap and files. *)
Definition vitePlugin (NODE_ENV : string) (hp : gmap Ref Plugin) (next : Ref)
    (ds : gset string) (fs : gmap string string) : World :=
  {| plugins := []; heap := hp; nextRef := next; vite := None;
     isProduction := String.eqb NODE_ENV "production";
     templateHtmlPromise := None; initVite_port := None;
     dirs := ds; files := fs; trace := [] |}.

(** The template the two generators start from. *)
Definition readTemplate (w : World) (url : string) : Result string :=
  match vite w with
  | Some srv =>
      match files w !! "./.vite/index.html" with
      | None => Throw (ENOENT "./.vite/index.html")
      | Some unProcessedTemplate => transformIndexHtml srv url unProcessedTemplate
      end
  | None =>
      match templateHtmlPromise w with
      | Some r => r
      | None => Ok ""
      end
  end.

Definition assemble (template head body : string) : Result string :=
  let headSplit := JS.split "<!--app-head-->" template in
  let piece1 := hd "" headSplit in
  match headSplit !! 1 with
  | None => Throw (TypeError "Cannot read properties of undefined (reading 'split')")
  | Some headSplit1 =>
      let bodySplit := JS.split "<!--app-html-->" headSplit1 in
      let piece2 := hd "" bodySplit in
      let piece3 := default "undefined" (bodySplit !! 1) in
      Ok (piece1 +:+ head +:+ piece2 +:+ body +:+ piece3)
  end.

Definition internalGenerateHTMLTemplate (w : World) (url head body : string)
  : Result string :=
  match readTemplate w url with
  | Throw e => Throw e
  | Ok template => assemble template head body
  end.

Definition baselineHead : string :=
  "<meta charset=" +:+ dq +:+ "UTF-8" +:+ dq +:+ " /><meta name=" +:+ dq +:+ "viewport"
  +:+ dq +:+ " content=" +:+ dq +:+ "width=device-width, initial-scale=1.0" +:+ dq +:+ " />".

Definition generateHTMLTemplate (w : World) (url head body : string) : Result string :=
  internalGenerateHTMLTemplate w url (baselineHead +:+ head) body.

(** [htmlTemplate.split("<head>")[1].split("</head>")[0]] *)
Definition headSpan (htmlTemplate : string) : Result string :=
  match JS.split "<head>" htmlTemplate !! 1 with
  | None => Throw (TypeError "Cannot read properties of undefined (reading 'split')")
  | Some afterHead => Ok (hd "" (JS.split "</head>" afterHead))
  end.

Definition generateHeadContent (w : World) : Result string :=
  match internalGenerateHTMLTemplate w "/" "" "" with
  | Throw e => Throw e
  | Ok htmlTemplate => headSpan htmlTemplate
  end.

(** The hooks of [getRelevantHooks()]; each [initVite] and [postInitVite]
    hook is kept with the reference of the plugin it was read from. *)
Definition lookupAll (w : World) (rs : list Ref) : list (Ref * Plugin) :=
  omap (fun r => match heap w !! r with Some p => Some (r, p) | None => None end) rs.

Definition relevantPlugins (w : World) : list (Ref * Plugin) :=
  filter (fun rp => pluginHasViteHooks rp.2 = true) (lookupAll w (plugins w)).

Definition configureViteHooks (w : World)
  : list (VitePluginConfig -> Result VitePluginConfig) :=
  omap (fun rp => configureVite rp.2) (relevantPlugins w).

Definition initViteHooks (w : World) : list (Ref * HookOutcome) :=
  omap (fun rp => match initVite rp.2 with Some h => Some (rp.1, h) | None => None end)
       (relevantPlugins w).

Definition postInitViteHooks (w : World) : list (Ref * HookOutcome) :=
  omap (fun rp => match postInitVite rp.2 with Some h => Some (rp.1, h) | None => None end)
       (relevantPlugins w).

(** *** [reloadPlugins] *)

Definition tagged (hp : gmap Ref Plugin) (r : Ref) : bool :=
  match hp !! r with
  | Some p => _vitePlugin p
  | None => false
  end.

(** [for (let i = n - 1; i >= 0; i--) if (plugins[i]._vitePlugin) plugins.splice(i, 1)] *)
Fixpoint purgeFrom (hp : gmap Ref Plugin) (n : nat) (ps : list Ref) : list Ref :=
  match n with
  | 0 => ps
  | S i =>
      purgeFrom hp i
        (match ps !! i with
         | Some r => if tagged hp r then delete i ps else ps
         | None => ps
         end)
  end.

Definition purge : M unit :=
  modify (fun w => set_plugins (fun ps => purgeFrom (heap w) (length ps) ps) w).

(** A fresh object for each element of the array a factory returns. *)
Definition alloc (p : Plugin) : M Ref :=
  fun w => (Ok (nextRef w), set_nextRef (S (nextRef w)) (set_heap (insert (nextRef w) p) w)).

Fixpoint allocAll (ps : list Plugin) : M (list Ref) :=
  match ps with
  | [] => ret []
  | p :: rest => r <- alloc p ;; rs <- allocAll rest ;; ret (r :: rs)
  end.

Definition setMarker (p : Plugin) : Plugin :=
  {| name := name p; port := port p; _vitePlugin := true;
     configureVite := configureVite p; initVite := initVite p;
     postInitVite := postInitVite p; init := init p; postInit := postInit p |}.

(** [plugin._vitePlugin = true] *)
Definition tag (r : Ref) : M unit := modify (set_heap (alter setMarker r)).

Definition hookOf (sel : Plugin -> option HookOutcome) (w : World) (r : Ref)
  : option HookOutcome :=
  match heap w !! r with
  | Some p => sel p
  | None => None
  end.

Definition initOne (r : Ref) : M unit :=
  tag r ;;;
  w <- get ;;
  match hookOf init w r with
  | Some h => callHook (EvInit r) h
  | None => ret tt
  end.

Definition postInitOne (r : Ref) : M unit :=
  w <- get ;;
  match hookOf postInit w r with
  | Some h => callHook (EvPostInit r) h
  | None => ret tt
  end.

Definition loadRegistry (h : Host) (built source : string) : M (list Plugin) :=
  w <- get ;;
  if isProduction w then lift (dynamicImport h (Path.join [cwd h; built]))
  else match vite w with
       | Some _ => lift (ssrLoadModule h source)
       | None => raise (TypeError "Cannot read properties of undefined (reading 'ssrLoadModule')")
       end.

Definition reloadPlugins (h : Host) : M unit :=
  purge ;;;
  clientPluginModule <- loadRegistry h "./.vite/dist/server/clientPlugins.js" "/clientPlugins.ts" ;;
  clientPluginManager <- allocAll clientPluginModule ;;
  serverPluginModule <- loadRegistry h "./.vite/dist/server/server.js" "/server.ts" ;;
  serverPluginManager <- allocAll serverPluginModule ;;
  modify (set_plugins (fun ps => ps ++ clientPluginManager)) ;;;
  modify (set_plugins (fun ps => ps ++ serverPluginManager)) ;;;
  forEach clientPluginManager initOne ;;;
  forEach serverPluginManager initOne ;;;
  forEach clientPluginManager postInitOne ;;;
  forEach serverPluginManager postInitOne.

(** *** Starting up *)

Definition restartServer (h : Host)
    (hooks : option (list (VitePluginConfig -> Result VitePluginConfig))) : M unit :=
  w <- get ;;
  let configureViteHooks :=
    match hooks with Some hs => hs | None => configureViteHooks w end in
  (if negb (isProduction w) then
     viteConfig <- lift (getViteDevConfig configureViteHooks) ;;
     createViteEnvironment (serverPluginModules viteConfig) (clientPluginModules viteConfig) ;;;
     emit (EvCreateServer (config viteConfig)) ;;;
     srv <- lift (createServer h (config viteConfig)) ;;
     modify (set_vite (Some srv)) ;;;
     emit (EvRouterUse ViteMiddlewares)
   else
     emit (EvRouterUse Compression) ;;;
     emit (EvRouterUse (Sirv "./.vite/dist/client"))) ;;;
  reloadPlugins h.

(** [init: async (_plugins) => { plugins = _plugins }] *)
Definition init_ (_plugins : list Ref) : M unit :=
  modify (set_plugins (fun _ => _plugins)).

Definition initExpress : M unit :=
  modify (fun w =>
    let expressPlugin :=
      List.find (fun rp => String.eqb (name rp.2) "express") (lookupAll w (plugins w)) in
    let port :=
      match expressPlugin with
      | Some rp => default 5173%N (port rp.2)
      | None => 5173%N
      end in
    set_initVite_port (Some port) w).

(** The members of the [initVite] object read the closure variables when
    they are used. *)
Definition initVite_mode (w : World) : string :=
  if isProduction w then "prod" else "dev".


(** [getDeps: (modules) => getDeps(modules, vite)]: the third parameter of
    the resolver keeps its default, [false]. *)
Definition initVite_getDeps (pm : PreloadModule) (w : World) (modules : list string)
  : option (list string * list Warning) :=
  getDeps (pm_manifestJson pm) modules (vite w) false.

Definition runBuild (h : Host) (c : InlineConfig) : M unit :=
  emit (EvBuild c) ;;; lift (build h c).

Definition readFilePromise (w : World) (path : string) : Result string :=
  match files w !! path with
  | Some content => Ok content
  | None => Throw (ENOENT path)
  end.

Definition postInitExpress (h : Host) : M unit :=
  w0 <- get ;;
  let configureViteHooks := configureViteHooks w0 in
  let initViteHooks := initViteHooks w0 in
  let postInitViteHooks := postInitViteHooks w0 in
  if args_build h then
    viteConfig <- lift (getViteProdConfig false configureViteHooks) ;;
    createViteEnvironment (serverPluginModules viteConfig) (clientPluginModules viteConfig) ;;;
    runBuild h (config viteConfig) ;;;
    viteConfigSSR <- lift (getViteProdConfig true configureViteHooks) ;;
    createViteEnvironment (serverPluginModules viteConfigSSR)
                          (clientPluginModules viteConfigSSR) ;;;
    runBuild h (config viteConfigSSR) ;;;
    emit EvStop
  else
    (if args_preview h then modify (set_isProduction true) else ret tt) ;;;
    restartServer h (Some configureViteHooks) ;;;
    emit EvAppUseRouter ;;;
    modify (fun w =>
      set_templateHtmlPromise
        (if isProduction w
         then Some (readFilePromise w "./.vite/dist/client/index.html")
         else None) w) ;;;
    forEach initViteHooks (fun rh => callHook (EvInitVite rh.1) rh.2) ;;;
    forEach postInitViteHooks (fun rh => callHook (EvPostInitVite rh.1) rh.2).

(** *** [injectVite] *)

(** The object [vitePlugin()] returns, as the other plugins and the host
    read it: its name, its [init] hook (which returns), and none of the
    hooks of [ViteHooks]. *)
Definition vitePluginObject : Plugin :=
  {| name := "vite"; port := None; _vitePlugin := false;
     configureVite := None; initVite := None; postInitVite := None;
     init := Some None; postInit := None |}.

(** The objects an array of references holds. *)
Definition deref (hp : gmap Ref Plugin) (rs : list Ref) : list (Ref * Plugin) :=
  omap (fun r => match hp !! r with Some p => Some (r, p) | None => None end) rs.

(** What a call [injectVite(plugins)] leaves behind: the array, the heap
    and, when the call created a plugin, the variables of its closure. *)
Record Injected : Type := {
  inj_plugins : list Ref;
  inj_heap : gmap Ref Plugin;
  inj_nextRef : Ref;
  inj_closure : option World
}.

(** [injectVite(plugins)], in a process with the given [NODE_ENV], heap and
    files.  The created plugin is pushed onto the array, and its [init]
    makes the array the plugin list of the closure. *)
Definition injectVite (NODE_ENV : string) (plugins : list Ref) (hp : gmap Ref Plugin)
    (next : Ref) (ds : gset string) (fs : gmap string string) : Injected :=
  match List.find (fun rp => String.eqb (name rp.2) "vite") (deref hp plugins) with
  | Some _ =>
      {| inj_plugins := plugins; inj_heap := hp; inj_nextRef := next;
         inj_closure := None |}
  | None =>
      let vite := vitePlugin NODE_ENV (<[next := vitePluginObject]> hp) (S next) ds fs in
      let plugins' := plugins ++ [next] in
      {| inj_plugins := plugins'; inj_heap := heap vite; inj_nextRef := nextRef vite;
         inj_closure := Some (init_ plugins' vite).2 |}
  end.

(** ** Vocabulary of the statements *)

(** *** Deduplication *)

(** The specification's words: every element once, at the place of its
    first occurrence.  To be compared with [set_from]. *)
Fixpoint firstOccurrences (l : list string) : list string :=
  match l with
  | [] => []
  | x :: rest => x :: filter (fun y => y ≠ x) (firstOccurrences rest)
  end.

(** *** Reachability in the module graph *)

(** [k] is the key of a node that carries an identifier. *)
Definition is_node (g : ModuleGraph) (k : string) : Prop :=
  ∃ n, idToModuleMap g !! k = Some n ∧ JS.truthy (node_id n) = true.

(** The node stored under [k] lists a node with identifier [d] among its
    imported modules. *)
Definition imports (g : ModuleGraph) (k d : string) : Prop :=
  ∃ n, idToModuleMap g !! k = Some n ∧ Some d ∈ importedModules n.

Definition edge (g : ModuleGraph) (k d : string) : Prop :=
  is_node g k ∧ imports g k d ∧ is_node g d.

Definition reachable (g : ModuleGraph) (entry k : string) : Prop :=
  is_node g entry ∧ rtc (edge g) entry k.

(** The map of a module graph is keyed by the identifiers of its nodes. *)
Definition wf_graph (g : ModuleGraph) : Prop :=
  ∀ k n, idToModuleMap g !! k = Some n →
         JS.truthy (node_id n) = true → node_id n = Some k.

(** The nodes a traversal can still enter: those with an identifier that is
    not in the visited set. Their number bounds the recursion depth. *)
Definition pending (seen : list string) (kn : string * ModuleNode) : bool :=
  JS.truthy (node_id kn.2) && negb (set_has (default "" (node_id kn.2)) seen).

Definition unseen (g : ModuleGraph) (seen : list string) : nat :=
  size (filter (fun kn => pending seen kn = true) (idToModuleMap g)).

(** The postcondition of a traversal call on [entryId] that started with
    the visited set [seen] and returned [r]: the set only grows and stays
    duplicate-free, the entry is in it, what was added is reachable from
    the entry, and what was added has its imports in the set. *)
Definition visited (g : ModuleGraph) (entryId : string) (seen r : list string) : Prop :=
  seen ⊆ r ∧
  (NoDup seen → NoDup r) ∧
  (is_node g entryId → entryId ∈ r) ∧
  (∀ k, k ∈ r → k ∈ seen ∨ reachable g entryId k) ∧
  (∀ k, k ∈ r → k ∉ seen → ∀ d, edge g k d → d ∈ r).

(** The nodes added to [s] on the way to [r] had every import looked up
    and answered. *)
Definition answered (g : ModuleGraph) (s r : list string) : Prop :=
  ∀ k n d, k ∈ r → k ∉ s → idToModuleMap g !! k = Some n →
           Some d ∈ importedModules n → d ≠ "" → lookupThrows g d = None.

(** *** What each entry contributes in development mode *)

Definition warningFor (module : string) (error : JSError) : Warning :=
  ("Failed to collect dependencies for " +:+ module +:+ ":", error).

Definition entryAssets (g : ModuleGraph) (module : string) : list string :=
  match collectDepsDev g module [] with
  | Some (Ok depsDev) => map getOptimizedUrl depsDev
  | _ => []
  end.

Definition entryWarnings (g : ModuleGraph) (module : string) : list Warning :=
  match collectDepsDev g module [] with
  | Some (Throw error) => [warningFor module error]
  | _ => []
  end.

(** What an entry contributes in production mode: the list recorded for
    it in the manifest, nothing when there is none. *)
Definition manifestAssets (manifestJson : gmap string (list string)) (module : string)
  : list string :=
  default [] (manifestJson !! module).

(** *** Path segments *)

(** [s] holds no path separator. *)
Definition no_slash (s : string) : Prop := JS.includes "/" s = false.

(** *** First occurrences *)

(** No occurrence of [sep] in [a ++ rest] starts inside [a]. *)
Fixpoint no_match_in (sep a rest : string) : bool :=
  match a with
  | EmptyString => true
  | String c a' =>
      negb (String.prefix sep (String c (a' +:+ rest))) && no_match_in sep a' rest
  end.

(** [s] is [a], then the first occurrence of [sep], then [r]. *)
Definition first_split (sep s a r : string) : Prop :=
  s = a +:+ sep +:+ r ∧ no_match_in sep a (sep +:+ r) = true.

(** *** What a reload leaves behind *)

Definition hasHook (sel : Plugin -> option HookOutcome) (hp : gmap Ref Plugin) (r : Ref)
  : bool :=
  match hp !! r with
  | Some p => present (sel p)
  | None => false
  end.

(** The calls of one hook loop over [rs] when no call raises. *)
Definition hookEvents (ev : Ref -> Event) (sel : Plugin -> option HookOutcome)
    (hp : gmap Ref Plugin) (rs : list Ref) : list Event :=
  map ev (filter (fun r => hasHook sel hp r = true) rs).

Definition tagAll (rs : list Ref) (hp : gmap Ref Plugin) : gmap Ref Plugin :=
  fold_left (fun hp r => alter setMarker r hp) rs hp.

Fixpoint storeAll (base : Ref) (ps : list Plugin) (hp : gmap Ref Plugin)
  : gmap Ref Plugin :=
  match ps with
  | [] => hp
  | p :: rest => storeAll (S base) rest (<[base := p]> hp)
  end.

(** The world with another heap and trace. *)
Definition put (hp : gmap Ref Plugin) (tr : list Event) (w : World) : World :=
  {| plugins := plugins w; heap := hp; nextRef := nextRef w; vite := vite w;
     isProduction := isProduction w; templateHtmlPromise := templateHtmlPromise w;
     initVite_port := initVite_port w; dirs := dirs w; files := files w;
     trace := tr |}.


Definition untagged (hp : gmap Ref Plugin) (r : Ref) : Prop := tagged hp r = false.

#[global] Instance untagged_dec hp r : Decision (untagged hp r).
Proof. unfold untagged. apply _. Defined.


(** The registry a reload on [w] loads: a [Throw] when loading raises. *)
Definition registryOf (h : Host) (w : World) (built source : string)
  : Result (list Plugin) :=
  fst (loadRegistry h built source w).

(** The instances a reload on [w] creates: none when loading a registry
    raises. *)
Definition newClients (h : Host) (w : World) : list Plugin :=
  match registryOf h w "./.vite/dist/server/clientPlugins.js" "/clientPlugins.ts" with
  | Ok cs => cs
  | Throw _ => []
  end.

Definition newServers (h : Host) (w : World) : list Plugin :=
  match registryOf h w "./.vite/dist/server/clientPlugins.js" "/clientPlugins.ts" with
  | Ok _ =>
      match registryOf h w "./.vite/dist/server/server.js" "/server.ts" with
      | Ok ss => ss
      | Throw _ => []
      end
  | Throw _ => []
  end.

Definition clientRefs (h : Host) (w : World) : list Ref :=
  seq (nextRef w) (length (newClients h w)).

Definition serverRefs (h : Host) (w : World) : list Ref :=
  seq (nextRef w + length (newClients h w)) (length (newServers h w)).

Definition freshHeap (h : Host) (w : World) : gmap Ref Plugin :=
  storeAll (nextRef w + length (newClients h w)) (newServers h w)
    (storeAll (nextRef w) (newClients h w) (heap w)).

(** The hook calls of a reload on [w] in which no hook raises. *)
Definition reloadEvents (h : Host) (w : World) : list Event :=
  hookEvents EvInit init (freshHeap h w) (clientRefs h w) ++
  hookEvents EvInit init (freshHeap h w) (serverRefs h w) ++
  hookEvents EvPostInit postInit (freshHeap h w) (clientRefs h w) ++
  hookEvents EvPostInit postInit (freshHeap h w) (serverRefs h w).



(** *** What a computation leaves alone *)





(** The calls of one loop over hooks when no call raises. *)
Definition hookCalls (ev : Ref -> Event) (hooks : list (Ref * HookOutcome)) : list Event :=
  map (fun rh => ev rh.1) hooks.

(** The world of a development start-up when it reloads the plugins: the
    scaffold is written and the server [srv] is running. *)
Definition devReady (viteConfig : VitePluginConfig) (srv : ViteDevServer) (w : World)
  : World :=
  ((createViteEnvironment (serverPluginModules viteConfig)
                          (clientPluginModules viteConfig) ;;;
    emit (EvCreateServer (config viteConfig)) ;;;
    modify (set_vite (Some srv)) ;;;
    emit (EvRouterUse ViteMiddlewares)) w).2.


(** *** Sample inputs *)

Module Sample.

Definition instance (n : string) (i p : option HookOutcome) : Plugin :=
  {| name := n; port := None; _vitePlugin := false; configureVite := None;
     initVite := None; postInitVite := None; init := i; postInit := p |}.

(** A bootstrap plugin that registers one client and one server module. *)
Definition boot : Plugin :=
  {| name := "boot"; port := None; _vitePlugin := false;
     configureVite :=
       Some (fun c =>
               Ok {| config := config c;
                     clientPluginModules := clientPluginModules c ++ ["example/client"];
                     serverPluginModules := serverPluginModules c ++ ["example/server"] |});
     initVite := Some None; postInitVite := Some None;
     init := None; postInit := None |}.

Definition express : Plugin :=
  {| name := "express"; port := Some 3000%N; _vitePlugin := false;
     configureVite := None; initVite := None; postInitVite := None;
     init := None; postInit := None |}.

(** The graph of the specification: [A -> B -> A] and [B -> C]. *)
Definition cyclic : ModuleGraph :=
  {| idToModuleMap :=
       <["/A" := {| node_id := Some "/A"; importedModules := [Some "/B"] |}]>
       (<["/B" := {| node_id := Some "/B"; importedModules := [Some "/A"; Some "/C"] |}]>
        (<["/C" := {| node_id := Some "/C"; importedModules := [] |}]> ∅));
     lookupThrows := fun _ => None |}.

(** The mock graph of the repository's tests: [main.ts] imports
    [Button.tsx], which imports [helper.ts]. *)
Definition mock : ModuleGraph :=
  {| idToModuleMap :=
       <["/src/main.ts" := {| node_id := Some "/src/main.ts";
                              importedModules := [Some "/src/components/Button.tsx"] |}]>
       (<["/src/components/Button.tsx" :=
            {| node_id := Some "/src/components/Button.tsx";
               importedModules := [Some "/src/utils/helper.ts"] |}]>
        (<["/src/utils/helper.ts" := {| node_id := Some "/src/utils/helper.ts";
                                        importedModules := [] |}]> ∅));
     lookupThrows := fun _ => None |}.

(** A module without identifier under the key the tests ask for. *)
Definition anonymous : ModuleGraph :=
  {| idToModuleMap := {["/src/test.ts" := {| node_id := None; importedModules := [] |}]};
     lookupThrows := fun _ => None |}.

(** A backend that raises on one key. *)
Definition flaky : ModuleGraph :=
  {| idToModuleMap := idToModuleMap cyclic;
     lookupThrows := fun k => if String.eqb k "/src/error.ts"
                              then Some (Thrown "Module graph error") else None |}.

(** The manifest of the specification's example. *)
Definition manifestText : JSONText :=
  ObjectText [("client.ts", ["a.js"; "b.js"]); ("admin.ts", ["a.js"; "c.js"])].

Definition server (g : ModuleGraph) : ViteDevServer :=
  {| moduleGraph := g; transformIndexHtml := fun _ html => Ok html |}.

Definition host (b p : bool) : Host :=
  {| args_build := b; args_preview := p; cwd := "/app";
     build := fun _ => Ok tt;
     createServer := fun _ => Ok (server cyclic);
     ssrLoadModule := fun m =>
       Ok [instance m (Some None) None; instance m (Some None) (Some None)];
     dynamicImport := fun m => Ok [instance m (Some None) (Some None)] |}.

(** A host whose registries return an instance with a raising [init]. *)
Definition failingHost : Host :=
  {| args_build := false; args_preview := false; cwd := "/app";
     build := fun _ => Ok tt;
     createServer := fun _ => Ok (server cyclic);
     ssrLoadModule := fun m =>
       Ok [instance m (Some (Some (Thrown "init failed"))) None;
           instance m (Some None) (Some None)];
     dynamicImport := fun m => Ok [] |}.

(** The world after [init]: the host registered [express] and [boot]. *)
Definition world (NODE_ENV : string) : World :=
  set_plugins (fun _ => [0; 1])
    (vitePlugin NODE_ENV (<[0 := express]> (<[1 := boot]> ∅)) 2 ∅ ∅).

(** A development world with a running server. *)
Definition devWorld : World := set_vite (Some (server cyclic)) (world "development").

(** The development world once [initExpress] and [postInitExpress] ran. *)
Definition servedWorld : World :=
  ((initExpress ;;; postInitExpress (host false false)) (world "development")).2.

(** The production world after [initExpress]. *)
Definition initializedProdWorld : World := (initExpress (world "production")).2.


(** The pieces of the generated shell. *)
Definition shellBeforeHead : string :=
  "<!DOCTYPE html>" +:+ nl +:+ "<html lang=" +:+ dq +:+ "en" +:+ dq +:+ ">" +:+ nl +:+ "  ".

Definition shellHeadBeforeToken : string := nl +:+ "    ".

Definition shellHeadAfterToken : string :=
  nl +:+ "    <script type=" +:+ dq +:+ "module" +:+ dq +:+ " src=" +:+ dq +:+ "/client.ts"
  +:+ dq +:+ "></script>" +:+ nl +:+ "  ".

Definition shellBodyBeforeToken : string :=
  nl +:+ "  <body>" +:+ nl +:+ "    <div id=" +:+ dq +:+ "app" +:+ dq +:+ ">".

Definition shellAfterBodyToken : string :=
  "</div>" +:+ nl +:+ "  </body>" +:+ nl +:+ "</html>".

(** A host whose development server fails to load the registries. *)
Definition brokenHost : Host :=
  {| args_build := false; args_preview := false; cwd := "/app";
     build := fun _ => Ok tt;
     createServer := fun _ => Ok (server cyclic);
     ssrLoadModule := fun m => Throw (SyntaxError m);
     dynamicImport := fun m => Ok [] |}.

(** A host whose bundler fails. *)
Definition failingBuildHost : Host :=
  {| args_build := true; args_preview := false; cwd := "/app";
     build := fun _ => Throw (Thrown "build failed");
     createServer := fun _ => Ok (server cyclic);
     ssrLoadModule := fun m => Ok [];
     dynamicImport := fun m => Ok [] |}.

(** A plugin whose [configureVite] hook raises. *)
Definition refusing : Plugin :=
  {| name := "refusing"; port := None; _vitePlugin := false;
     configureVite := Some (fun _ => Throw (Thrown "no configuration"));
     initVite := Some None; postInitVite := None;
     init := None; postInit := None |}.


(** The world after [init] with the plugins [ps], in registration order. *)
Definition worldOf (NODE_ENV : string) (ps : list Plugin) : World :=
  set_plugins (fun _ => seq 0 (length ps))
    (vitePlugin NODE_ENV (storeAll 0 ps ∅) (length ps) ∅ ∅).

(** A graph in which [/A] imports [/B] and an identifier on which the
    backend raises. *)
Definition brittle : ModuleGraph :=
  {| idToModuleMap :=
       <["/A" := {| node_id := Some "/A";
                    importedModules := [Some "/B"; Some "/src/error.ts"] |}]>
       (<["/B" := {| node_id := Some "/B"; importedModules := [] |}]> ∅);
     lookupThrows := fun k => if String.eqb k "/src/error.ts"
                              then Some (Thrown "Module graph error") else None |}.

(** A production world whose cached template is [template]. *)
Definition cachedWorld (template : string) : World :=
  set_templateHtmlPromise (Some (Ok template)) (world "production").

End Sample.

(** * Properties *)

Example path_join_fs : Path.join ["/@fs/"; "/src/main.ts"] = "/@fs/src/main.ts".
Proof. reflexivity. Qed.

Example path_join_up : Path.join ["/@fs/"; "../x"] = "/x".
Proof. reflexivity. Qed.

Example path_join_manifest :
  Path.join ["/mock/project"; ".vite"; "client.ts"] = "/mock/project/.vite/client.ts".
Proof. reflexivity. Qed.

Example path_join_rel : Path.join ["a/../../b/"; "./c/"] = "../b/c/".
Proof. reflexivity. Qed.

Example split_example : JS.split "<>" "a<>b<><>c<" = ["a"; "b"; ""; "c<"].
Proof. reflexivity. Qed.

(** ** The tests of the repository, replayed on the model *)

Example test_collects_dependencies_recursively :
  getDeps ∅ ["/src/main.ts"] (Some (Sample.server Sample.mock)) false
  = Some (["/@fs/src/main.ts"; "/@fs/src/components/Button.tsx";
           "/@fs/src/utils/helper.ts"], []).
Proof. by vm_compute. Qed.

Example test_non_existent_module :
  getDeps ∅ ["/src/nonexistent.ts"] (Some (Sample.server Sample.mock)) false
  = Some ([], []).
Proof. by vm_compute. Qed.

Example test_module_without_id :
  getDeps ∅ ["/src/test.ts"] (Some (Sample.server Sample.anonymous)) false = Some ([], []).
Proof. by vm_compute. Qed.

Example test_error_during_collection :
  getDeps ∅ ["/src/error.ts"] (Some (Sample.server Sample.flaky)) false
  = Some ([], [("Failed to collect dependencies for /src/error.ts:",
                Thrown "Module graph error")]).
Proof. by vm_compute. Qed.

Example test_node_modules_url :
  getOptimizedUrl "/project/node_modules/lodash/index.js"
  = "/node_modules/.vite/deps/lodash.js".
Proof. by vm_compute. Qed.

Example test_scoped_package_url :
  getOptimizedUrl "/project/node_modules/@vue/shared/index.js"
  = "/node_modules/.vite/deps/@vue_shared.js".
Proof. by vm_compute. Qed.

Example test_already_optimized_url :
  getOptimizedUrl "/@id/virtual:my-plugin" = "/@id/virtual:my-plugin".
Proof. by vm_compute. Qed.

Example test_no_server_no_result :
  getDeps ∅ ["/@fs/absolute/path/file1.ts"; "file:///absolute/path/file2.ts";
             "/regular/path/file3.ts"] None false
  = Some ([], []).
Proof. by vm_compute. Qed.

(** The test on a malformed manifest expects a warning and a resolver
    that works; loading the module raises instead. *)
Example test_malformed_manifest :
  loadPreloadModule "/mock/project" (Some (Malformed "invalid json {"))
  = Throw (SyntaxError "invalid json {").
Proof. done. Qed.

Example test_missing_manifest :
  ∃ pm, loadPreloadModule "/mock/project" None = Ok pm ∧
        getDeps (pm_manifestJson pm) ["/mock/project/.vite/client.ts"] None true
        = Some ([], []).
Proof. eexists. split; [reflexivity|]. by vm_compute. Qed.

(** The production tests call the resolver with two arguments and expect
    the lists of the manifest; the third parameter then is [false] and the
    code returns nothing.  With the production flag the lists are found. *)
Example test_production_call_of_the_tests :
  ∃ m, manifestJson "/mock/project" (Some Sample.manifestText) = Ok m ∧
       getDeps m ["/mock/project/.vite/client.ts"; "/mock/project/.vite/admin.ts"]
               None false = Some ([], []) ∧
       getDeps m ["/mock/project/.vite/client.ts"; "/mock/project/.vite/admin.ts"]
               None true = Some (["a.js"; "b.js"; "c.js"], []).
Proof. eexists. split; [reflexivity|]. split; by vm_compute. Qed.

(** ** The development traversal *)

Lemma truthy_Some (o : option string) :
  JS.truthy o = true ↔ ∃ s, o = Some s ∧ s ≠ "".
Proof.
  destruct o as [s|]; simpl.
  - rewrite negb_true_iff, String.eqb_neq. split.
    + intros H. by exists s.
    + by intros (s' & [= <-] & H).
  - split; [done | by intros (s & H & _)].
Qed.

Lemma set_has_true x (s : list string) : set_has x s = true ↔ x ∈ s.
Proof. unfold set_has. apply bool_decide_eq_true. Qed.

Lemma set_has_false x (s : list string) : set_has x s = false ↔ x ∉ s.
Proof. unfold set_has. apply bool_decide_eq_false. Qed.

Lemma pending_spec seen kn :
  pending seen kn = true ↔
  JS.truthy (node_id kn.2) = true ∧ default "" (node_id kn.2) ∉ seen.
Proof.
  unfold pending. by rewrite andb_true_iff, negb_true_iff, set_has_false.
Qed.

Section Traversal.

Variable g : ModuleGraph.

Lemma unseen_le_size seen : unseen g seen ≤ size (idToModuleMap g).
Proof. apply map_subseteq_size, map_filter_subseteq. Qed.

Lemma unseen_mono (s s' : list string) : s ⊆ s' → unseen g s' ≤ unseen g s.
Proof.
  intros Hs. apply map_subseteq_size, map_subseteq_spec. intros k n.
  rewrite !map_lookup_filter_Some, !pending_spec. intros (Hk & Ht & Hn).
  repeat split; [done..|]. intros Hin. apply Hn, Hs, Hin.
Qed.

Lemma unseen_add (s : list string) k n :
  idToModuleMap g !! k = Some n →
  JS.truthy (node_id n) = true →
  default "" (node_id n) ∉ s →
  unseen g (s ++ [default "" (node_id n)]) < unseen g s.
Proof.
  intros Hk Ht Hn. apply map_subset_size, map_subset_alt. split.
  - apply map_subseteq_spec. intros k' n'.
    rewrite !map_lookup_filter_Some, !pending_spec. intros (Hk' & Ht' & Hn').
    repeat split; [done..|]. intros Hin. apply Hn'. set_solver.
  - exists k. split.
    + apply map_lookup_filter_None. right. intros n' Hk'.
      rewrite pending_spec. simpl. intros [_ Hn']. apply Hn'.
      assert (n' = n) as -> by congruence. set_solver.
    + exists n. apply map_lookup_filter_Some. by rewrite pending_spec.
Qed.

(** **** Termination *)

Lemma forEachDep_returns rec (bound : list string) :
  (∀ d s, bound ⊆ s →
     ∃ r, rec d s = Some r ∧ ∀ s', r = Ok s' → s ⊆ s') →
  ∀ deps s, bound ⊆ s →
    ∃ r, forEachDep rec deps s = Some r ∧ ∀ s', r = Ok s' → s ⊆ s'.
Proof.
  intros Hrec deps. induction deps as [|dep rest IH]; intros s Hs; simpl.
  - exists (Ok s). split; [done|]. by intros s' [= <-].
  - destruct (JS.truthy dep); [|by apply IH].
    destruct (Hrec (default "" dep) s Hs) as (r & -> & Hr).
    destruct r as [s1|err].
    + specialize (Hr s1 eq_refl).
      destruct (IH s1) as (r' & -> & Hr'); [set_solver|].
      exists r'. split; [done|]. intros s' ->. specialize (Hr' s' eq_refl). set_solver.
    + exists (Throw err). split; [done|]. by intros s' [=].
Qed.

Lemma collectDepsDev_fuel_returns fuel :
  ∀ entryId seen, unseen g seen < fuel →
    ∃ r, collectDepsDev_fuel fuel g entryId seen = Some r ∧
         ∀ s', r = Ok s' → seen ⊆ s'.
Proof.
  induction fuel as [|fuel IH]; intros entryId seen Hlt; [lia|]. simpl.
  destruct (getModuleById g entryId) as [[node|]|err] eqn:Hget.
  - destruct (JS.truthy (node_id node)) eqn:Ht; simpl.
    + destruct (set_has (default "" (node_id node)) seen) eqn:Hhas.
      * exists (Ok seen). split; [done|]. by intros s' [= <-].
      * unfold getModuleById in Hget.
        destruct (lookupThrows g entryId); [done|]. injection Hget as Hget.
        apply set_has_false in Hhas.
        pose proof (unseen_add seen entryId node Hget Ht Hhas) as Hdec.
        destruct (forEachDep_returns (collectDepsDev_fuel fuel g)
                    (seen ++ [default "" (node_id node)])) with
          (deps := importedModules node) (s := seen ++ [default "" (node_id node)])
          as (r & Hr & Hsub).
        -- intros d s Hs. apply IH.
           pose proof (unseen_mono _ _ Hs). lia.
        -- done.
        -- exists r. split; [done|]. intros s' ->.
           specialize (Hsub s' eq_refl). set_solver.
    + exists (Ok seen). split; [done|]. by intros s' [= <-].
  - exists (Ok seen). split; [done|]. by intros s' [= <-].
  - exists (Throw err). split; [done|]. by intros s' [=].
Qed.

(** The traversal returns, or raises what the backend raised: the fuel
    of [collectDepsDev] is always enough. *)
Lemma collectDepsDev_returns entryId :
  ∃ r, collectDepsDev g entryId [] = Some r.
Proof.
  destruct (collectDepsDev_fuel_returns (S (size (idToModuleMap g))) entryId [])
    as (r & Hr & _).
  - pose proof (unseen_le_size []). lia.
  - by exists r.
Qed.

(** More fuel does not change a result. *)
Lemma forEachDep_rec_mono rec rec' :
  (∀ d s r, rec d s = Some r → rec' d s = Some r) →
  ∀ deps s r, forEachDep rec deps s = Some r → forEachDep rec' deps s = Some r.
Proof.
  intros Hrec deps. induction deps as [|dep rest IH]; intros s r; simpl; [done|].
  destruct (JS.truthy dep); [|by apply IH].
  destruct (rec (default "" dep) s) as [[s1|err]|] eqn:Hc; [| |done].
  - rewrite (Hrec _ _ _ Hc). apply IH.
  - by rewrite (Hrec _ _ _ Hc).
Qed.

Lemma collectDepsDev_fuel_mono fuel :
  ∀ fuel' entryId seen r,
    fuel ≤ fuel' →
    collectDepsDev_fuel fuel g entryId seen = Some r →
    collectDepsDev_fuel fuel' g entryId seen = Some r.
Proof.
  induction fuel as [|fuel IH]; intros fuel' entryId seen r Hle; [done|].
  destruct fuel' as [|fuel']; [lia|]. simpl.
  destruct (getModuleById g entryId) as [[node|]|err]; [|done..].
  destruct (negb (JS.truthy (node_id node))); [done|].
  destruct (set_has (default "" (node_id node)) seen); [done|].
  apply forEachDep_rec_mono. intros d s r'. apply IH. lia.
Qed.

(** **** Without a raising backend the traversal returns a set *)

Hypothesis no_throw : ∀ k, lookupThrows g k = None.

Lemma forEachDep_no_throw rec :
  (∀ d s err, rec d s ≠ Some (Throw err)) →
  ∀ deps s err, forEachDep rec deps s ≠ Some (Throw err).
Proof.
  intros Hrec deps. induction deps as [|dep rest IH]; intros s err; simpl; [done|].
  destruct (JS.truthy dep); [|by apply IH].
  destruct (rec (default "" dep) s) as [[s1|err']|] eqn:Hc; [by apply IH| |done].
  by destruct (Hrec _ _ _ Hc).
Qed.

Lemma collectDepsDev_fuel_no_throw fuel :
  ∀ entryId seen err, collectDepsDev_fuel fuel g entryId seen ≠ Some (Throw err).
Proof.
  induction fuel as [|fuel IH]; intros entryId seen err; [done|]. simpl.
  unfold getModuleById. rewrite no_throw.
  destruct (idToModuleMap g !! entryId) as [node|]; [|done].
  destruct (negb (JS.truthy (node_id node))); [done|].
  destruct (set_has (default "" (node_id node)) seen); [done|].
  by apply forEachDep_no_throw.
Qed.

(** **** What the traversal collects *)

Hypothesis wf : wf_graph g.

Lemma not_node_empty : ¬ is_node g "".
Proof.
  intros (n & Hn & Ht). pose proof (wf _ _ Hn Ht) as Hid.
  rewrite Hid in Ht. done.
Qed.

Lemma forEachDep_visited rec :
  (∀ d s r, rec d s = Some (Ok r) → visited g d s r) →
  ∀ deps s r, forEachDep rec deps s = Some (Ok r) →
    s ⊆ r ∧
    (NoDup s → NoDup r) ∧
    (∀ d, Some d ∈ deps → is_node g d → d ∈ r) ∧
    (∀ k, k ∈ r → k ∈ s ∨ ∃ d, Some d ∈ deps ∧ reachable g d k) ∧
    (∀ k, k ∈ r → k ∉ s → ∀ d, edge g k d → d ∈ r).
Proof.
  intros Hrec deps. induction deps as [|dep rest IH]; intros s r; simpl.
  - intros [= <-]. repeat split; [done|done| |by left|done].
    intros d Hd. by apply elem_of_nil in Hd.
  - destruct (JS.truthy dep) eqn:Ht.
    + apply truthy_Some in Ht as (d0 & -> & Hd0). simpl.
      destruct (rec d0 s) as [[s1|err]|] eqn:Hc; [|done..].
      intros Hloop. apply IH in Hloop as (Hsub & Hnd & Hin & Hsound & Hclosed).
      apply Hrec in Hc as (Hsub1 & Hnd1 & Hin1 & Hsound1 & Hclosed1).
      repeat split.
      * set_solver.
      * auto.
      * intros d [[= ->]|Hd]%elem_of_cons Hnode; [set_solver|by apply Hin].
      * intros k Hk. destruct (Hsound k Hk) as [Hk1|(d & Hd & Hreach)].
        -- destruct (Hsound1 k Hk1) as [?|?]; [by left|].
           right. exists d0. split; [left|done].
        -- right. exists d. split; [by right|done].
      * intros k Hk Hks d Hedge.
        destruct (decide (k ∈ s1)) as [Hk1|Hk1].
        -- apply Hsub. by apply (Hclosed1 k).
        -- by apply (Hclosed k).
    + intros Hloop. apply IH in Hloop as (Hsub & Hnd & Hin & Hsound & Hclosed).
      repeat split; [done|done| | |done].
      * intros d [Hd|Hd]%elem_of_cons Hnode; [|by apply Hin].
        subst dep. simpl in Ht. apply negb_false_iff, String.eqb_eq in Ht.
        subst d. by destruct not_node_empty.
      * intros k Hk. destruct (Hsound k Hk) as [?|(d & Hd & Hreach)]; [by left|].
        right. exists d. split; [by right|done].
Qed.

Lemma collectDepsDev_fuel_visited fuel :
  ∀ entryId seen r,
    collectDepsDev_fuel fuel g entryId seen = Some (Ok r) →
    visited g entryId seen r.
Proof.
  induction fuel as [|fuel IH]; intros entryId seen r; [done|]. simpl.
  unfold getModuleById. rewrite no_throw.
  destruct (idToModuleMap g !! entryId) as [node|] eqn:Hnode.
  - destruct (JS.truthy (node_id node)) eqn:Ht; simpl.
    + pose proof (wf _ _ Hnode Ht) as Hid. rewrite Hid. simpl.
      assert (is_node g entryId) as Hisnode by by exists node.
      destruct (set_has entryId seen) eqn:Hhas.
      * intros [= <-]. apply set_has_true in Hhas.
        repeat split; [done|done|done|by left|done].
      * apply set_has_false in Hhas. intros Hloop.
        apply (forEachDep_visited _ IH) in Hloop
          as (Hsub & Hnd & Hin & Hsound & Hclosed).
        repeat split.
        -- set_solver.
        -- intros Hnds. apply Hnd. apply NoDup_app. repeat split; [done| |apply NoDup_singleton].
           intros x Hx Hx'. apply list_elem_of_singleton in Hx'. by subst.
        -- intros _. set_solver.
        -- intros k Hk. destruct (Hsound k Hk) as [Hk'|(d & Hd & Hnd' & Hreach)].
           ++ apply elem_of_app in Hk' as [?|Hk']; [by left|].
              apply list_elem_of_singleton in Hk'. subst k. by right.
           ++ right. split; [done|].
              eapply rtc_l; [|done]. repeat split; [done| |done]. by exists node.
        -- intros k Hk Hks d Hedge.
           destruct (decide (k = entryId)) as [->|Hne].
           ++ destruct Hedge as (_ & (n' & Hn' & Himp) & Hd).
              assert (n' = node) as -> by congruence. by apply Hin.
           ++ apply (Hclosed k); [done| |done]. set_solver.
    + intros [= <-]. repeat split; [done|done| |by left|done].
      intros (n' & Hn' & Ht'). congruence.
  - intros [= <-]. repeat split; [done|done| |by left|done].
    intros (n' & Hn' & _). congruence.
Qed.

(** A traversal that starts with an empty set returns exactly the
    reachable nodes, each once. *)
Lemma collectDepsDev_reachable entryId :
  ∃ seen, collectDepsDev g entryId [] = Some (Ok seen) ∧
          NoDup seen ∧ ∀ k, k ∈ seen ↔ reachable g entryId k.
Proof.
  destruct (collectDepsDev_returns entryId) as ([seen|err] & Hr).
  - exists seen. split; [done|].
    apply collectDepsDev_fuel_visited in Hr as (_ & Hnd & Hin & Hsound & Hclosed).
    split; [apply Hnd, NoDup_nil_2|]. intros k. split.
    + intros Hk. destruct (Hsound k Hk) as [Hk'|]; [|done]. by apply elem_of_nil in Hk'.
    + intros [Hnode Hrtc]. specialize (Hin Hnode).
      revert k Hrtc. apply rtc_ind_r; [done|].
      intros y z _ Hyz Hy. apply (Hclosed y); [done| |done]. apply not_elem_of_nil.
  - by destruct (collectDepsDev_fuel_no_throw _ _ _ _ Hr).
Qed.

End Traversal.

(** ** Reloading *)

Lemma bind_inv {A B} (c : M A) (k : A -> M B) w r w' :
  bind c k w = (r, w') →
  (∃ a w1, c w = (Ok a, w1) ∧ k a w1 = (r, w')) ∨
  (∃ e, c w = (Throw e, w') ∧ r = Throw e).
Proof.
  unfold bind. destruct (c w) as [[a|e] w1]; intros H.
  - left. by exists a, w1.
  - right. exists e. by injection H as <- <-.
Qed.

Lemma put_id w : put (heap w) (trace w) w = w.
Proof. by destruct w. Qed.

Lemma purgeFrom_take hp n (ps : list Ref) :
  n ≤ length ps →
  purgeFrom hp n ps = filter (untagged hp) (take n ps) ++ drop n ps.
Proof.
  revert ps. induction n as [|i IH]; intros ps Hn; [done|]. simpl purgeFrom.
  destruct (lookup_lt_is_Some_2 ps i) as [r Hr]; [lia|]. rewrite Hr.
  rewrite (take_S_r _ _ _ Hr), filter_app, filter_cons, filter_nil.
  destruct (tagged hp r) eqn:Ht.
  - assert (length (take i ps) = i) as Hlen by (rewrite length_take; lia).
    rewrite delete_take_drop.
    rewrite IH by (rewrite length_app, Hlen; lia).
    rewrite take_app_length', drop_app_length' by done.
    rewrite decide_False by (unfold untagged; congruence).
    by rewrite app_nil_r.
  - rewrite IH by lia. rewrite decide_True by done.
    rewrite (drop_S _ _ _ Hr). by rewrite <- app_assoc.
Qed.

(** The backwards [splice] loop removes exactly the tagged entries. *)
Lemma purgeFrom_filter hp (ps : list Ref) :
  purgeFrom hp (length ps) ps = filter (untagged hp) ps.
Proof.
  rewrite purgeFrom_take by done. by rewrite take_ge, drop_all, app_nil_r.
Qed.

Lemma allocAll_eq ps :
  ∀ w, allocAll ps w =
       (Ok (seq (nextRef w) (length ps)),
        set_nextRef (nextRef w + length ps) (set_heap (storeAll (nextRef w) ps) w)).
Proof.
  induction ps as [|p rest IH]; intros w; simpl.
  - unfold ret. f_equal. destruct w. unfold set_nextRef, set_heap. simpl. f_equal. lia.
  - unfold bind at 1. unfold alloc at 1. unfold bind at 1. rewrite IH.
    unfold ret. simpl. f_equal. unfold set_nextRef, set_heap. simpl. f_equal. lia.
Qed.

Lemma storeAll_lookup_lt ps : ∀ base hp r, r < base → storeAll base ps hp !! r = hp !! r.
Proof.
  induction ps as [|p rest IH]; intros base hp r Hr; simpl; [done|].
  rewrite IH by lia. apply lookup_insert_ne. lia.
Qed.

Lemma storeAll_lookup_ge ps :
  ∀ base hp r, base + length ps ≤ r → storeAll base ps hp !! r = hp !! r.
Proof.
  induction ps as [|p rest IH]; intros base hp r Hr; simpl in *; [done|].
  rewrite IH by lia. apply lookup_insert_ne. lia.
Qed.

Lemma storeAll_lookup_new ps :
  ∀ base hp i, i < length ps → storeAll base ps hp !! (base + i) = ps !! i.
Proof.
  induction ps as [|p rest IH]; intros base hp i Hi; simpl in *; [lia|].
  destruct i as [|i].
  - rewrite Nat.add_0_r, storeAll_lookup_lt by lia. apply lookup_insert_eq.
  - replace (base + S i) with (S base + i) by lia. apply IH. lia.
Qed.

Lemma tagAll_lookup_notin rs : ∀ hp r, r ∉ rs → tagAll rs hp !! r = hp !! r.
Proof.
  induction rs as [|r0 rs IH]; intros hp r Hr; simpl; [done|].
  apply not_elem_of_cons in Hr as [Hne Hr]. rewrite IH by done.
  by apply lookup_alter_ne.
Qed.

Lemma tagAll_tagged rs : ∀ hp r, tagged hp r = true → tagged (tagAll rs hp) r = true.
Proof.
  induction rs as [|r0 rs IH]; intros hp r Hr; simpl; [done|].
  apply IH. unfold tagged in *. rewrite lookup_alter.
  destruct (decide (r0 = r)) as [->|]; [|done]. by destruct (hp !! r).
Qed.

Lemma tagAll_tags rs : ∀ hp r, r ∈ rs → is_Some (hp !! r) → tagged (tagAll rs hp) r = true.
Proof.
  induction rs as [|r0 rs IH]; intros hp r Hr [p Hp]; simpl; [by apply elem_of_nil in Hr|].
  destruct (decide (r = r0)) as [->|Hne].
  - apply tagAll_tagged. unfold tagged. by rewrite lookup_alter_eq, Hp.
  - apply IH; [set_solver|]. rewrite lookup_alter_ne by done. by exists p.
Qed.

Section HookLoops.

Variable sel : Plugin -> option HookOutcome.
Hypothesis sel_setMarker : ∀ p, sel (setMarker p) = sel p.

Lemma hasHook_alter hp r0 r :
  hasHook sel (alter setMarker r0 hp) r = hasHook sel hp r.
Proof.
  unfold hasHook. rewrite lookup_alter.
  destruct (decide (r0 = r)) as [->|]; [|done].
  destruct (hp !! r); simpl; [|done]. by rewrite sel_setMarker.
Qed.

Lemma hasHook_tagAll rs : ∀ hp r, hasHook sel (tagAll rs hp) r = hasHook sel hp r.
Proof.
  induction rs as [|r0 rs IH]; intros hp r; simpl; [done|].
  by rewrite IH, hasHook_alter.
Qed.

Lemma hookEvents_ext ev hp hp' rs :
  (∀ r, hasHook sel hp' r = hasHook sel hp r) →
  hookEvents ev sel hp' rs = hookEvents ev sel hp rs.
Proof.
  intros Hext. unfold hookEvents. f_equal.
  induction rs as [|r rs IH]; [done|].
  rewrite !filter_cons, IH, Hext. done.
Qed.

Lemma hookEvents_cons ev hp r rs :
  hookEvents ev sel hp (r :: rs) =
  (if hasHook sel hp r then [ev r] else []) ++ hookEvents ev sel hp rs.
Proof.
  unfold hookEvents. rewrite filter_cons.
  destruct (hasHook sel hp r) eqn:Hh.
  - by rewrite decide_True.
  - by rewrite decide_False by congruence.
Qed.

End HookLoops.

Lemma put_set_heap hp tr f w : put hp tr (set_heap f w) = put hp tr w.
Proof. done. Qed.

Lemma put_add_event hp tr e w : put hp tr (add_event e w) = put hp tr w.
Proof. done. Qed.

Lemma initOne_eq r w :
  initOne r w =
  let w1 := set_heap (alter setMarker r) w in
  match heap w !! r ≫= init with
  | None => (Ok tt, w1)
  | Some None => (Ok tt, add_event (EvInit r) w1)
  | Some (Some e) => (Throw e, add_event (EvInit r) w1)
  end.
Proof.
  unfold initOne, tag, bind, modify, get, hookOf. simpl.
  rewrite lookup_alter_eq.
  destruct (heap w !! r) as [p|]; simpl; [|done].
  destruct (init p) as [[e|]|]; done.
Qed.

Lemma postInitOne_eq r w :
  postInitOne r w =
  match heap w !! r ≫= postInit with
  | None => (Ok tt, w)
  | Some None => (Ok tt, add_event (EvPostInit r) w)
  | Some (Some e) => (Throw e, add_event (EvPostInit r) w)
  end.
Proof.
  unfold postInitOne, bind, get, hookOf.
  destruct (heap w !! r) as [p|]; simpl; [|done].
  destruct (postInit p) as [[e|]|]; done.
Qed.

Lemma initLoop rs :
  ∀ w res w', forEach rs initOne w = (res, w') →
    ∃ marked evs,
      w' = put (tagAll marked (heap w)) (trace w ++ evs) w ∧
      marked `prefix_of` rs ∧
      evs `prefix_of` hookEvents EvInit init (heap w) rs ∧
      (res = Ok tt → marked = rs ∧ evs = hookEvents EvInit init (heap w) rs).
Proof.
  induction rs as [|r rs IH]; intros w res w'; simpl.
  - intros [= <- <-]. exists [], []. simpl. rewrite app_nil_r, put_id. done.
  - unfold bind at 1. rewrite initOne_eq. simpl.
    rewrite (hookEvents_cons init). unfold hasHook.
    destruct (heap w !! r) as [p|] eqn:Hp; simpl;
      [destruct (init p) as [[e|]|] eqn:Hi; simpl|].
    + intros [= <- <-]. exists [r], [EvInit r]. split; [done|].
      split; [by apply prefix_cons, prefix_nil|].
      split; [by apply prefix_cons, prefix_nil|done].
    + intros Hrest. apply IH in Hrest as (marked & evs & -> & Hm & Hev & Hok).
      simpl in *. rewrite (hookEvents_ext init EvInit (heap w)) in Hev, Hok
        by (intros; by apply hasHook_alter).
      exists (r :: marked), (EvInit r :: evs). rewrite <- app_assoc. simpl.
      split; [done|]. split; [by apply prefix_cons|]. split; [by apply prefix_cons|].
      intros Hres. destruct (Hok Hres) as [-> ->]. done.
    + intros Hrest. apply IH in Hrest as (marked & evs & -> & Hm & Hev & Hok).
      simpl in *. rewrite (hookEvents_ext init EvInit (heap w)) in Hev, Hok
        by (intros; by apply hasHook_alter).
      exists (r :: marked), evs. split; [done|]. split; [by apply prefix_cons|].
      split; [done|]. intros Hres. destruct (Hok Hres) as [-> ->]. done.
    + intros Hrest. apply IH in Hrest as (marked & evs & -> & Hm & Hev & Hok).
      simpl in *. rewrite (hookEvents_ext init EvInit (heap w)) in Hev, Hok
        by (intros; by apply hasHook_alter).
      exists (r :: marked), evs. split; [done|]. split; [by apply prefix_cons|].
      split; [done|]. intros Hres. destruct (Hok Hres) as [-> ->]. done.
Qed.

Lemma postInitLoop rs :
  ∀ w res w', forEach rs postInitOne w = (res, w') →
    ∃ evs,
      w' = put (heap w) (trace w ++ evs) w ∧
      evs `prefix_of` hookEvents EvPostInit postInit (heap w) rs ∧
      (res = Ok tt → evs = hookEvents EvPostInit postInit (heap w) rs).
Proof.
  induction rs as [|r rs IH]; intros w res w'; simpl.
  - intros [= <- <-]. exists []. rewrite app_nil_r, put_id. done.
  - unfold bind at 1. rewrite postInitOne_eq.
    rewrite (hookEvents_cons postInit). unfold hasHook.
    destruct (heap w !! r) as [p|] eqn:Hp; simpl;
      [destruct (postInit p) as [[e|]|] eqn:Hi; simpl|].
    + intros [= <- <-]. exists [EvPostInit r]. split; [done|].
      split; [by apply prefix_cons, prefix_nil|done].
    + intros Hrest. apply IH in Hrest as (evs & -> & Hev & Hok). simpl in *.
      exists (EvPostInit r :: evs). rewrite <- app_assoc. simpl.
      split; [done|]. split; [by apply prefix_cons|].
      intros Hres. by rewrite (Hok Hres).
    + intros Hrest. apply IH in Hrest as (evs & -> & Hev & Hok).
      exists evs. done.
    + intros Hrest. apply IH in Hrest as (evs & -> & Hev & Hok).
      exists evs. done.
Qed.

Lemma loadRegistry_eq h built source w :
  loadRegistry h built source w = (registryOf h w built source, w).
Proof.
  unfold registryOf, loadRegistry, bind, get, lift, raise.
  destruct (isProduction w); [done|]. by destruct (vite w).
Qed.

Lemma registryOf_env h w1 w2 built source :
  isProduction w1 = isProduction w2 → vite w1 = vite w2 →
  registryOf h w1 built source = registryOf h w2 built source.
Proof.
  intros Hp Hv. unfold registryOf, loadRegistry, bind, get, lift, raise. cbn.
  rewrite Hp, Hv. destruct (isProduction w2); [done|]. by destruct (vite w2).
Qed.

Lemma purge_eq w :
  purge w = (Ok tt, set_plugins (fun _ => filter (untagged (heap w)) (plugins w)) w).
Proof.
  unfold purge, modify, set_plugins. by rewrite purgeFrom_filter.
Qed.

Lemma reloadPlugins_run h w res w' :
  reloadPlugins h w = (res, w') →
  ∃ evs,
    trace w' = trace w ++ evs ∧
    evs `prefix_of` reloadEvents h w ∧
    vite w' = vite w ∧ isProduction w' = isProduction w ∧
    (res = Ok tt →
       evs = reloadEvents h w ∧
       plugins w' =
         filter (untagged (heap w)) (plugins w) ++ clientRefs h w ++ serverRefs h w ∧
       heap w' = tagAll (serverRefs h w) (tagAll (clientRefs h w) (freshHeap h w)) ∧
       nextRef w' = nextRef w + length (newClients h w) + length (newServers h w)).
Proof.
  unfold reloadPlugins. intros H.
  unfold bind at 1 in H. rewrite purge_eq in H.
  set (w1 := set_plugins _ w) in H.
  unfold bind at 1 in H. rewrite loadRegistry_eq in H.
  rewrite (registryOf_env h w1 w) in H by done.
  unfold reloadEvents, clientRefs, serverRefs, freshHeap, newClients, newServers.
  destruct (registryOf h w _ "/clientPlugins.ts") as [cs|e] eqn:Hcs.
  2:{ injection H as <- <-. exists []. simpl. rewrite app_nil_r.
      repeat split; first [done | apply prefix_nil]. }
  unfold bind at 1 in H. rewrite allocAll_eq in H.
  set (w2 := set_nextRef _ _) in H.
  unfold bind at 1 in H. rewrite loadRegistry_eq in H.
  rewrite (registryOf_env h w2 w) in H by done.
  destruct (registryOf h w _ "/server.ts") as [ss|e] eqn:Hss.
  2:{ injection H as <- <-. exists []. simpl. rewrite app_nil_r.
      repeat split; first [done | apply prefix_nil]. }
  unfold bind at 1 in H. rewrite allocAll_eq in H.
  set (w3 := set_nextRef _ _) in H.
  unfold bind at 1 in H. unfold modify at 1 in H.
  unfold bind at 1 in H. unfold modify at 1 in H.
  set (w4 := set_plugins _ (set_plugins _ w3)) in H.
  change (nextRef w1) with (nextRef w) in *.
  change (nextRef w2) with (nextRef w + length cs) in *.
  set (hp := storeAll (nextRef w + length cs) ss (storeAll (nextRef w) cs (heap w))).
  set (cl := seq (nextRef w) (length cs)) in *.
  set (sv := seq (nextRef w + length cs) (length ss)) in *.
  assert (Hinit : ∀ rs hp' l,
             hookEvents EvInit init (tagAll rs hp') l = hookEvents EvInit init hp' l).
  { intros rs hp' l. apply hookEvents_ext. intros r. by apply hasHook_tagAll. }
  assert (Hpost : ∀ rs hp' l,
             hookEvents EvPostInit postInit (tagAll rs hp') l =
             hookEvents EvPostInit postInit hp' l).
  { intros rs hp' l. apply hookEvents_ext. intros r. by apply hasHook_tagAll. }
  apply bind_inv in H as [([] & w5 & H1 & H)|(err & H1 & ->)];
    apply initLoop in H1 as (m1 & e1 & -> & Hm1 & He1 & Hok1);
    change (heap w4) with hp in *; change (trace w4) with (trace w) in *.
  2:{ exists e1. simpl. repeat split; try done. by apply prefix_app_r. }
  destruct (Hok1 eq_refl) as [-> ->]. clear Hok1 Hm1 He1.
  apply bind_inv in H as [([] & w6 & H2 & H)|(err & H2 & ->)];
    apply initLoop in H2 as (m2 & e2 & -> & Hm2 & He2 & Hok2); simpl in *;
    rewrite Hinit in He2, Hok2.
  2:{ exists (hookEvents EvInit init hp cl ++ e2). simpl. rewrite <- ?app_assoc.
      repeat split; try done. by apply prefix_app, prefix_app_r. }
  destruct (Hok2 eq_refl) as [-> ->]. clear Hok2 Hm2 He2.
  apply bind_inv in H as [([] & w7 & H3 & H)|(err & H3 & ->)];
    apply postInitLoop in H3 as (e3 & -> & He3 & Hok3); simpl in *;
    rewrite !Hpost in He3, Hok3.
  2:{ exists (hookEvents EvInit init hp cl ++ hookEvents EvInit init hp sv ++ e3). simpl.
      rewrite <- !app_assoc.
      repeat split; try done. by apply prefix_app, prefix_app, prefix_app_r. }
  rewrite (Hok3 eq_refl) in *. clear Hok3 He3.
  apply postInitLoop in H as (e4 & -> & He4 & Hok4). simpl in *.
  rewrite !Hpost in He4, Hok4.
  exists (hookEvents EvInit init hp cl ++ hookEvents EvInit init hp sv ++
          hookEvents EvPostInit postInit hp cl ++ e4).
  rewrite <- !app_assoc.
  split; [done|]. split; [by apply prefix_app, prefix_app, prefix_app|].
  split; [done|]. split; [done|].
  intros Hres. rewrite (Hok4 Hres). repeat split; try done.
Qed.


Lemma freshHeap_lookup_new h w r :
  r ∈ clientRefs h w ++ serverRefs h w → is_Some (freshHeap h w !! r).
Proof.
  unfold clientRefs, serverRefs, freshHeap.
  rewrite elem_of_app, !elem_of_seq. intros [[Hlo Hhi]|[Hlo Hhi]].
  - rewrite storeAll_lookup_lt by lia.
    replace r with (nextRef w + (r - nextRef w)) by lia.
    rewrite storeAll_lookup_new by lia. apply lookup_lt_is_Some_2. lia.
  - replace r with (nextRef w + length (newClients h w)
                    + (r - (nextRef w + length (newClients h w)))) by lia.
    rewrite storeAll_lookup_new by lia. apply lookup_lt_is_Some_2. lia.
Qed.











(** ** The claims about reloading *)



(** The theorem above is about reloads that return.  The marker is set on
    an instance just before its [init] hook is called: when that hook
    raises, the instances pushed after it stay unmarked, and the next
    reload does not purge them. *)
Example reload_after_raising_init :
  (reloadPlugins Sample.failingHost Sample.devWorld).1 = Throw (Thrown "init failed") ∧
  plugins (reloadPlugins Sample.failingHost Sample.devWorld).2 = [0; 1; 2; 3; 4; 5] ∧
  plugins (reloadPlugins (Sample.host false false)
             (reloadPlugins Sample.failingHost Sample.devWorld).2).2
  = [0; 1; 3; 4; 5; 6; 7; 8; 9].
Proof. repeat split; by vm_compute. Qed.

(** C9. In every run of [reloadPlugins] the hook calls made are an initial
    part of: the [init] hooks of the new client instances, then those of the
    new server instances, then the [postInit] hooks of the client
    instances, then those of the server instances, each group in
    registration order; they are all of it when the run returns.  So when
    some [postInit] hook has run, every [init] hook has completed. *)
Theorem C9_init_hooks_complete_before_postInit h w res w' :
  reloadPlugins h w = (res, w') →
  ∃ evs,
    trace w' = trace w ++ evs ∧
    evs `prefix_of` reloadEvents h w ∧
    (res = Ok tt → evs = reloadEvents h w) ∧
    (∀ r, EvPostInit r ∈ evs →
       hookEvents EvInit init (freshHeap h w) (clientRefs h w) ++
       hookEvents EvInit init (freshHeap h w) (serverRefs h w) `prefix_of` evs).
Proof.
  intros Hrun. apply reloadPlugins_run in Hrun as (evs & Htrace & Hpre & _ & _ & Hok).
  exists evs. split; [done|]. split; [done|]. split; [intros Hres; by apply Hok|].
  intros r Hr.
  set (inits := hookEvents EvInit init (freshHeap h w) (clientRefs h w) ++
                hookEvents EvInit init (freshHeap h w) (serverRefs h w)).
  assert (inits `prefix_of` reloadEvents h w) as Hinits.
  { unfold reloadEvents, inits. rewrite app_assoc. apply prefix_app_r. done. }
  destruct (prefix_weak_total _ _ _ Hpre Hinits) as [Hshort|Hlong]; [|done].
  exfalso. destruct Hshort as [k Hk].
  assert (EvPostInit r ∈ inits) as Hin by (rewrite Hk; set_solver).
  unfold inits, hookEvents in Hin.
  apply elem_of_app in Hin as [Hin|Hin];
    apply list_elem_of_fmap in Hin as (x & [=] & _).
Qed.

Lemma C9_init_hooks_witness :
  trace (reloadPlugins (Sample.host false false) Sample.devWorld).2
  = [EvInit 2; EvInit 3; EvInit 4; EvInit 5; EvPostInit 3; EvPostInit 5].
Proof.
  destruct (C9_init_hooks_complete_before_postInit
              (Sample.host false false) Sample.devWorld (Ok tt)
              (reloadPlugins (Sample.host false false) Sample.devWorld).2)
    as (evs & Htrace & _ & Hok & _).
  - by vm_compute.
  - rewrite Htrace, (Hok eq_refl). by vm_compute.
Defined.

(** ** [getDeps] *)

Lemma set_add_elem x y (s : list string) : y ∈ set_add x s ↔ y ∈ s ∨ y = x.
Proof.
  unfold set_add. destruct (set_has x s) eqn:Hx.
  - apply set_has_true in Hx. split; [by left|]. by intros [?| ->].
  - rewrite elem_of_app, list_elem_of_singleton. done.
Qed.

Lemma set_add_NoDup x (s : list string) : NoDup s → NoDup (set_add x s).
Proof.
  intros Hs. unfold set_add. destruct (set_has x s) eqn:Hx; [done|].
  apply set_has_false in Hx. apply NoDup_app. repeat split; [done| |apply NoDup_singleton].
  intros y Hy Hy'. apply list_elem_of_singleton in Hy'. by subst.
Qed.

Lemma set_fold_spec (l : list string) :
  ∀ acc, NoDup acc →
    NoDup (fold_left (fun s x => set_add x s) l acc) ∧
    ∀ y, y ∈ fold_left (fun s x => set_add x s) l acc ↔ y ∈ acc ∨ y ∈ l.
Proof.
  induction l as [|x l IH]; intros acc Hacc; simpl.
  - split; [done|]. intros y. rewrite elem_of_nil. tauto.
  - destruct (IH (set_add x acc) (set_add_NoDup x acc Hacc)) as [Hnd Hin].
    split; [done|]. intros y. rewrite Hin, set_add_elem, elem_of_cons. tauto.
Qed.

(** [[...new Set(l)]] has the elements of [l], each once. *)
Lemma set_from_NoDup l : NoDup (set_from l).
Proof. apply set_fold_spec, NoDup_nil_2. Qed.

Lemma set_from_elem l y : y ∈ set_from l ↔ y ∈ l.
Proof.
  unfold set_from. destruct (set_fold_spec l [] (NoDup_nil_2)) as [_ Hin].
  rewrite Hin, elem_of_nil. tauto.
Qed.

Lemma set_fold_firstOccurrences (l : list string) :
  ∀ acc, fold_left (fun s x => set_add x s) l acc =
         acc ++ filter (fun y => y ∉ acc) (firstOccurrences l).
Proof.
  induction l as [|x l IH]; intros acc; cbn [fold_left firstOccurrences].
  - by rewrite filter_nil, app_nil_r.
  - rewrite IH. unfold set_add. destruct (set_has x acc) eqn:Hx.
    + apply set_has_true in Hx. rewrite filter_cons_False by (intros H; by apply H).
      f_equal. rewrite list_filter_filter. apply list_filter_iff.
      intros y. split; [|tauto]. intros Hy. split; [done|]. by intros ->.
    + apply set_has_false in Hx. rewrite filter_cons_True by done.
      rewrite <- app_assoc. cbn [app]. do 2 f_equal.
      rewrite list_filter_filter. apply list_filter_iff.
      intros y. rewrite elem_of_app, list_elem_of_singleton. tauto.
Qed.

(** [[...new Set(l)]] keeps first occurrences, in order. *)
Lemma set_from_firstOccurrences l : set_from l = firstOccurrences l.
Proof.
  unfold set_from. rewrite set_fold_firstOccurrences. cbn [app].
  induction (firstOccurrences l) as [|x r IH]; [done|].
  rewrite filter_cons_True by apply not_elem_of_nil. by rewrite IH.
Qed.

(** The loop of [getDeps] in development mode adds up what each entry
    contributes on its own. *)
Lemma getDepsLoop_dev manifestJson srv modules :
  ∀ deps warns,
    getDepsLoop manifestJson (Some srv) false modules (deps, warns) =
    Some (deps ++ flat_map (entryAssets (moduleGraph srv)) modules,
          warns ++ flat_map (entryWarnings (moduleGraph srv)) modules).
Proof.
  induction modules as [|m rest IH]; intros deps warns; simpl.
  - by rewrite !app_nil_r.
  - unfold entryAssets at 1, entryWarnings at 1.
    destruct (collectDepsDev_returns (moduleGraph srv) m) as (r & Hr). rewrite Hr.
    destruct r as [depsDev|error].
    + destruct depsDev as [|d ds]; simpl; rewrite IH; simpl.
      * done.
      * by rewrite <- !app_assoc.
    + rewrite IH. unfold warningFor. by rewrite <- !app_assoc.
Qed.

Lemma getDepsLoop_prod manifestJson srv modules :
  ∀ deps warns,
    getDepsLoop manifestJson srv true modules (deps, warns) =
    Some (deps ++ flat_map (manifestAssets manifestJson) modules, warns).
Proof.
  induction modules as [|m rest IH]; intros deps warns; simpl.
  - by rewrite app_nil_r.
  - unfold manifestAssets at 1.
    destruct (manifestJson !! m) as [l|]; simpl; rewrite IH; [|done].
    by rewrite <- app_assoc.
Qed.

(** Without a server and outside production mode nothing is resolved. *)
Lemma getDepsLoop_none manifestJson modules :
  ∀ st, getDepsLoop manifestJson None false modules st = Some st.
Proof.
  induction modules as [|m rest IH]; intros [deps warns]; simpl; [done|]. apply IH.
Qed.

Lemma getDeps_production manifestJson srv modules :
  getDeps manifestJson modules srv true =
  Some (set_from (flat_map (manifestAssets manifestJson) (map normalizeModule modules)), []).
Proof. unfold getDeps. by rewrite getDepsLoop_prod. Qed.

Lemma getDeps_development manifestJson srv modules :
  getDeps manifestJson modules (Some srv) false =
  Some (set_from (flat_map (entryAssets (moduleGraph srv)) (map normalizeModule modules)),
        flat_map (entryWarnings (moduleGraph srv)) (map normalizeModule modules)).
Proof. unfold getDeps. by rewrite getDepsLoop_dev. Qed.

Lemma getDeps_no_server manifestJson modules :
  getDeps manifestJson modules None false = Some ([], []).
Proof. unfold getDeps. by rewrite getDepsLoop_none. Qed.

(** The resolver always returns. *)
Lemma getDeps_total manifestJson modules srv isProduction :
  ∃ res, getDeps manifestJson modules srv isProduction = Some res.
Proof.
  destruct isProduction.
  - rewrite getDeps_production. by eexists.
  - destruct srv as [srv|].
    + rewrite getDeps_development. by eexists.
    + rewrite getDeps_no_server. by eexists.
Qed.

(** ** The claims about the development traversal *)

(** C6. On every module graph keyed by the identifiers of its nodes and
    whose backend answers, cyclic or not, the traversal from an entry
    returns; it returns the nodes reachable from the entry, each once; the
    list the resolver returns for that entry holds the rewritten URL of every
    reachable node exactly once and nothing else; and a call on a node that
    is already in the visited set returns that set at once. *)
Theorem C6_traversal_terminates_and_visits_once manifestJson srv entry :
  let g := moduleGraph srv in
  let start := normalizeModule entry in
  wf_graph g →
  (∀ k, lookupThrows g k = None) →
  ∃ seen res,
    collectDepsDev g start [] = Some (Ok seen) ∧
    NoDup seen ∧
    (∀ k, k ∈ seen ↔ reachable g start k) ∧
    getDeps manifestJson [entry] (Some srv) false = Some (res, []) ∧
    res = set_from (map getOptimizedUrl seen) ∧
    NoDup res ∧
    (∀ k, reachable g start k → count_occ string_dec res (getOptimizedUrl k) = 1) ∧
    (∀ u, u ∈ res → ∃ k, reachable g start k ∧ u = getOptimizedUrl k) ∧
    (∀ fuel k visitedSet,
       is_node g k → k ∈ visitedSet →
       collectDepsDev_fuel (S fuel) g k visitedSet = Some (Ok visitedSet)).
Proof.
  intros g start Hwf Hno.
  destruct (collectDepsDev_reachable g Hno Hwf start) as (seen & Hseen & Hnd & Hreach).
  exists seen, (set_from (map getOptimizedUrl seen)).
  split; [done|]. split; [done|]. split; [done|].
  split.
  { rewrite getDeps_development. simpl. fold g. fold start.
    unfold entryAssets, entryWarnings. rewrite Hseen. by rewrite !app_nil_r. }
  split; [done|]. split; [apply set_from_NoDup|].
  split; [|split].
  - intros k Hk. apply NoDup_count_occ'; [apply NoDup_ListNoDup, set_from_NoDup|].
    apply list_elem_of_In, set_from_elem, list_elem_of_fmap.
    exists k. split; [done|]. by apply Hreach.
  - intros u Hu. apply set_from_elem, list_elem_of_fmap in Hu as (k & -> & Hk).
    exists k. split; [|done]. by apply Hreach.
  - intros fuel k visitedSet (n & Hn & Ht) Hk. simpl.
    unfold getModuleById. fold g. rewrite Hno, Hn, Ht. simpl.
    rewrite (Hwf _ _ Hn Ht). simpl.
    apply set_has_true in Hk. by rewrite Hk.
Qed.

Lemma cyclic_wf : wf_graph Sample.cyclic.
Proof.
  intros k n Hn _. unfold Sample.cyclic in Hn. simpl in Hn.
  repeat (rewrite lookup_insert in Hn; case_decide;
          [subst k; by injection Hn as <-|]).
  by rewrite lookup_empty in Hn.
Qed.

Lemma C6_traversal_witness :
  getDeps ∅ ["/@fs/A"] (Some (Sample.server Sample.cyclic)) false
  = Some (["/@fs/A"; "/@fs/B"; "/@fs/C"], []).
Proof.
  destruct (C6_traversal_terminates_and_visits_once
              ∅ (Sample.server Sample.cyclic) "/@fs/A" cyclic_wf (fun _ => eq_refl))
    as (seen & res & Hseen & _ & _ & Hres & -> & _).
  vm_compute in Hseen. injection Hseen as <-. rewrite Hres. by vm_compute.
Defined.

(** C7. In development mode the resolver returns for every entry list:
    its result is made of what each entry contributes on its own, and an
    entry whose traversal raises contributes no asset and one warning,
    whatever the other entries are. *)
Theorem C7_dev_entry_failure_is_isolated manifestJson srv modules :
  let g := moduleGraph srv in
  let entries := map normalizeModule modules in
  getDeps manifestJson modules (Some srv) false =
    Some (set_from (flat_map (entryAssets g) entries), flat_map (entryWarnings g) entries) ∧
  (∀ m error, collectDepsDev g m [] = Some (Throw error) →
     entryAssets g m = [] ∧ entryWarnings g m = [warningFor m error]) ∧
  (∀ m depsDev, collectDepsDev g m [] = Some (Ok depsDev) →
     entryAssets g m = map getOptimizedUrl depsDev ∧ entryWarnings g m = []) ∧
  (∀ m, ∃ r, collectDepsDev g m [] = Some r).
Proof.
  intros g entries. split; [apply getDeps_development|].
  split; [|split].
  - intros m error Hm. unfold entryAssets, entryWarnings. by rewrite Hm.
  - intros m depsDev Hm. unfold entryAssets, entryWarnings. by rewrite Hm.
  - intros m. apply collectDepsDev_returns.
Qed.

Lemma C7_dev_entry_failure_witness :
  getDeps ∅ ["/B"; "/src/error.ts"; "/C"] (Some (Sample.server Sample.flaky)) false
  = Some (["/@fs/B"; "/@fs/A"; "/@fs/C"],
          [warningFor "/src/error.ts" (Thrown "Module graph error")]) ∧
  entryAssets Sample.flaky "/src/error.ts" = [].
Proof.
  destruct (C7_dev_entry_failure_is_isolated
              ∅ (Sample.server Sample.flaky) ["/B"; "/src/error.ts"; "/C"])
    as (Hres & Hthrow & _).
  split.
  - rewrite Hres. by vm_compute.
  - apply (Hthrow "/src/error.ts" (Thrown "Module graph error")). by vm_compute.
Defined.

(** ** Strings *)

#[local] Arguments Ascii.ascii_dec : simpl never.

Lemma app_String c a b : String c a +:+ b = String c (a +:+ b).
Proof. done. Qed.

Lemma app_empty b : "" +:+ b = b.
Proof. done. Qed.

Lemma prefix_empty s : String.prefix "" s = true.
Proof. by destruct s. Qed.

Lemma prefix_cons c d p s :
  String.prefix (String c p) (String d s) =
  if Ascii.ascii_dec c d then String.prefix p s else false.
Proof. done. Qed.

Lemma prefix_neq_head c d p s : c ≠ d → String.prefix (String c p) (String d s) = false.
Proof. intros Hne. rewrite prefix_cons. by destruct (Ascii.ascii_dec c d). Qed.

Lemma prefix_app_self p s : String.prefix p (p +:+ s) = true.
Proof.
  induction p as [|c p IH]; [apply prefix_empty|].
  rewrite app_String, prefix_cons. by destruct (Ascii.ascii_dec c c).
Qed.

Lemma split_aux_nonempty sep : ∀ s skip, JS.split_aux sep skip s ≠ [].
Proof.
  induction s as [|c s IH]; intros skip; [done|]. cbn [JS.split_aux].
  destruct skip; [|apply IH].
  destruct (String.prefix sep (String c s)); [done|].
  by destruct (JS.split_aux sep 0 s).
Qed.

(** Splitting at a one-character separator distributes over a separator
    between two strings. *)
Lemma split_slash_app a b :
  JS.split "/" (a +:+ "/" +:+ b) = JS.split "/" a ++ JS.split "/" b.
Proof.
  unfold JS.split. induction a as [|c a IH].
  - rewrite app_empty, app_String, app_empty. cbn [JS.split_aux].
    rewrite prefix_cons. destruct (Ascii.ascii_dec "/" "/"); [|done].
    by rewrite prefix_empty.
  - rewrite app_String. cbn [JS.split_aux].
    rewrite !prefix_cons. destruct (Ascii.ascii_dec "/" c) as [<-|Hc].
    + rewrite !prefix_empty. cbn [String.length Nat.sub]. by rewrite IH.
    + rewrite IH.
      pose proof (split_aux_nonempty "/" a 0) as Hne.
      by destruct (JS.split_aux "/" 0 a).
Qed.

Lemma split_no_slash s : no_slash s → JS.split "/" s = [s].
Proof.
  unfold no_slash, JS.split. induction s as [|c s IH];
    cbn [JS.includes JS.split_aux]; [done|].
  rewrite prefix_cons. destruct (Ascii.ascii_dec "/" c) as [<-|Hc].
  - by rewrite prefix_empty.
  - cbn [orb]. intros Hs. by rewrite IH.
Qed.

Lemma includes_app_r p a b : JS.includes p b = true → JS.includes p (a +:+ b) = true.
Proof.
  intros Hb. induction a as [|c a IH]; [done|].
  rewrite app_String. cbn [JS.includes]. rewrite IH. apply orb_true_r.
Qed.

Lemma lastIndexOf_from_none p s :
  JS.includes p s = false → ∀ i, JS.lastIndexOf_from p s i = None.
Proof.
  induction s as [|c s IH]; cbn [JS.includes JS.lastIndexOf_from]; intros Hs i.
  - rewrite orb_false_r in Hs. by rewrite Hs.
  - apply orb_false_iff in Hs as [Hp Hs]. by rewrite IH, Hp.
Qed.

Lemma lastIndexOf_from_app p a b :
  ∀ i j, JS.lastIndexOf_from p b (i + String.length a) = Some j →
         JS.lastIndexOf_from p (a +:+ b) i = Some j.
Proof.
  induction a as [|c a IH]; intros i j Hb.
  - rewrite app_empty. by rewrite Nat.add_0_r in Hb.
  - rewrite app_String. cbn [JS.lastIndexOf_from String.length] in *.
    rewrite (IH (S i) j); [done|]. by replace (S i + String.length a)
      with (i + S (String.length a)) by lia.
Qed.

Lemma substring_app a b n :
  JS.substring (String.length a + n) (a +:+ b) = JS.substring n b.
Proof.
  induction a as [|c a IH]; [done|].
  rewrite app_String. cbn [String.length Nat.add JS.substring]. apply IH.
Qed.

Lemma string_app_assoc (a b c : string) : (a +:+ b) +:+ c = a +:+ (b +:+ c).
Proof.
  induction a as [|x a IH]; [done|]. rewrite !app_String. by rewrite IH.
Qed.

Lemma string_app_inj_l (a b c : string) : a +:+ b = a +:+ c → b = c.
Proof.
  induction a as [|x a IH]; [done|]. rewrite !app_String. intros [= H]. by apply IH.
Qed.

Ltac prefix_mismatch :=
  repeat match goal with
         | |- context [String.prefix (String ?c ?p) (String ?d ?s)] =>
             rewrite (prefix_neq_head c d p s) by discriminate
         end.

(** The package key of a file of a scoped package. *)
Lemma extractPackageName_scoped pre scope pkg rest :
  no_slash scope → no_slash pkg →
  JS.includes "node_modules/" (scope +:+ "/" +:+ pkg +:+ "/" +:+ rest) = false →
  extractPackageName
    (pre +:+ "node_modules/" +:+ "@" +:+ scope +:+ "/" +:+ pkg +:+ "/" +:+ rest)
  = Some ("@" +:+ scope +:+ "_" +:+ pkg).
Proof.
  intros Hscope Hpkg Hlast. unfold extractPackageName, JS.lastIndexOf.
  set (tail := scope +:+ "/" +:+ pkg +:+ "/" +:+ rest) in *.
  rewrite (lastIndexOf_from_app _ pre _ 0 (String.length pre)).
  2:{ rewrite !app_String, !app_empty. cbn [JS.lastIndexOf_from].
      rewrite (lastIndexOf_from_none _ _ Hlast). prefix_mismatch.
      change (String "n" (String "o" (String "d" (String "e" (String "_" (String "m"
                (String "o" (String "d" (String "u" (String "l" (String "e" (String "s"
                (String "/" (String "@" tail))))))))))))))
        with ("node_modules/" +:+ String "@" tail).
      by rewrite prefix_app_self. }
  rewrite substring_app. rewrite !app_String, !app_empty.
  cbn [JS.substring String.length].
  unfold tail.
  change (String "@" (scope +:+ "/" +:+ pkg +:+ "/" +:+ rest))
    with (("@" +:+ scope) +:+ "/" +:+ (pkg +:+ "/" +:+ rest)).
  rewrite !split_slash_app.
  rewrite (split_no_slash ("@" +:+ scope)), (split_no_slash pkg); [|done|].
  - cbn [app hd]. unfold JS.startsWith. rewrite prefix_app_self.
    pose proof (split_aux_nonempty "/" rest 0) as Hne. unfold JS.split.
    by destruct (JS.split_aux "/" 0 rest).
  - unfold no_slash in *. rewrite app_String, app_empty. cbn [JS.includes].
    rewrite prefix_neq_head by discriminate. done.
Qed.

Lemma includes_self p s : JS.includes p (p +:+ s) = true.
Proof.
  destruct (p +:+ s) eqn:E; cbn [JS.includes]; rewrite <- E, prefix_app_self; done.
Qed.

Lemma truthy_nonempty key : key ≠ "" → JS.truthy (Some key) = true.
Proof. intros H. apply truthy_Some. by exists key. Qed.

(** ** The claim about URL rewriting *)

(** C8, as the code has it.  The rewrite checks in order: an identifier
    that starts with [/@id/], [/@fs/] or the optimized-dependency URL prefix
    [/node_modules/.vite/deps/] is returned unchanged; otherwise an
    identifier that contains [node_modules], does not contain [.vite/deps]
    and has a non-empty package key is rewritten to
    [/node_modules/.vite/deps/<package-key>.js]; every other identifier,
    a cache path that lacks the URL prefix included, becomes
    [path.join("/@fs/", id)].  In particular a file of a scoped package,
    [.../node_modules/@scope/name/...], is rewritten to
    [/node_modules/.vite/deps/@scope_name.js]. *)
Theorem C8_url_rewrite_rules id :
  (JS.startsWith "/@id/" id = true ∨ JS.startsWith "/@fs/" id = true
   ∨ JS.startsWith "/node_modules/.vite/deps/" id = true →
   getOptimizedUrl id = id) ∧
  (JS.startsWith "/@id/" id = false → JS.startsWith "/@fs/" id = false →
   JS.startsWith "/node_modules/.vite/deps/" id = false →
   (∀ key, JS.includes "node_modules" id = true →
           JS.includes ".vite/deps" id = false →
           extractPackageName id = Some key → key ≠ "" →
           getOptimizedUrl id = "/node_modules/.vite/deps/" +:+ key +:+ ".js") ∧
   (JS.includes "node_modules" id = false ∨ JS.includes ".vite/deps" id = true
    ∨ extractPackageName id = None ∨ extractPackageName id = Some "" →
    getOptimizedUrl id = Path.join ["/@fs/"; id]) ∧
   (∀ pre scope pkg rest,
      id = pre +:+ "node_modules/" +:+ "@" +:+ scope +:+ "/" +:+ pkg +:+ "/" +:+ rest →
      no_slash scope → no_slash pkg →
      JS.includes "node_modules/" (scope +:+ "/" +:+ pkg +:+ "/" +:+ rest) = false →
      JS.includes ".vite/deps" id = false →
      getOptimizedUrl id = "/node_modules/.vite/deps/" +:+ "@" +:+ scope +:+ "_" +:+ pkg
                           +:+ ".js")).
Proof.
  split.
  - intros H. unfold getOptimizedUrl.
    destruct H as [-> | [-> | ->]]; by rewrite ?orb_true_r.
  - intros H1 H2 H3.
    assert (Hkey : ∀ key, JS.includes "node_modules" id = true →
                          JS.includes ".vite/deps" id = false →
                          extractPackageName id = Some key → key ≠ "" →
                          getOptimizedUrl id = "/node_modules/.vite/deps/" +:+ key +:+ ".js").
    { intros key Hnm Hvd Hpk Hne. unfold getOptimizedUrl.
      rewrite H1, H2, H3, Hnm, Hvd, Hpk. cbn [orb andb negb].
      by rewrite (truthy_nonempty key Hne). }
    split; [done|]. split.
    + intros H. unfold getOptimizedUrl. rewrite H1, H2, H3. cbn [orb].
      destruct H as [-> | [-> | [-> | ->]]]; [done| |..].
      * by rewrite andb_false_r.
      * by destruct (_ && _).
      * by destruct (_ && _).
    + intros pre scope pkg rest Hid Hscope Hpkg Hlast Hvd.
      rewrite (Hkey ("@" +:+ scope +:+ "_" +:+ pkg)).
      * by rewrite !string_app_assoc.
      * rewrite Hid. apply includes_app_r.
        change ("node_modules/" +:+ "@" +:+ scope +:+ "/" +:+ pkg +:+ "/" +:+ rest)
          with ("node_modules" +:+ "/" +:+ "@" +:+ scope +:+ "/" +:+ pkg +:+ "/" +:+ rest).
        apply includes_self.
      * done.
      * rewrite Hid. by apply extractPackageName_scoped.
      * done.
Qed.

Lemma C8_url_rewrite_witness :
  getOptimizedUrl "/project/node_modules/@vue/shared/index.js"
  = "/node_modules/.vite/deps/@vue_shared.js".
Proof.
  destruct (C8_url_rewrite_rules "/project/node_modules/@vue/shared/index.js")
    as [_ Hrules].
  destruct Hrules as (_ & _ & Hscoped); [done..|].
  by apply (Hscoped "/project/" "vue" "shared" "index.js").
Defined.

(** A path into the dependency-optimization cache that does not start with
    the URL prefix is not returned unchanged. *)
Lemma C8_cache_path_counterexample :
  JS.includes ".vite/deps" "/project/node_modules/.vite/deps/lodash.js" = true ∧
  getOptimizedUrl "/project/node_modules/.vite/deps/lodash.js"
    = "/@fs/project/node_modules/.vite/deps/lodash.js" ∧
  getOptimizedUrl "/project/node_modules/.vite/deps/lodash.js"
    ≠ "/project/node_modules/.vite/deps/lodash.js".
Proof. done. Qed.

(** ** The manifest *)

Lemma endsWithSlash_app a c b :
  Path.endsWithSlash (a +:+ String c b) = Path.endsWithSlash (String c b).
Proof.
  induction a as [|d a IH]; [done|]. rewrite app_String.
  cbn [Path.endsWithSlash]. rewrite IH.
  destruct a; [by rewrite app_empty|by rewrite app_String].
Qed.

Lemma concat_snoc2 sep (l : list string) a b :
  String.concat sep (l ++ [a; b]) =
  match l with
  | [] => ""
  | _ => String.concat sep l +:+ sep
  end +:+ a +:+ sep +:+ b.
Proof.
  induction l as [|x l IH]; [done|].
  cbn [app]. destruct l as [|y l].
  - cbn [app String.concat]. by rewrite !string_app_assoc.
  - cbn [app String.concat] in *. rewrite IH. by rewrite !string_app_assoc.
Qed.

Lemma eqb_app_nonempty a c b : String.eqb (a +:+ String c b) "" = false.
Proof. destruct a; [by rewrite app_empty|by rewrite app_String]. Qed.

Lemma normStep_plain allow stack seg :
  String.eqb seg "" = false → String.eqb seg "." = false → String.eqb seg ".." = false →
  Path.normStep allow stack seg = seg :: stack.
Proof. intros H1 H2 H3. unfold Path.normStep. by rewrite H1, H2, H3. Qed.

(** Normalizing a path whose last two segments are [.vite] and a plain
    file name keeps them, after a part computed from the segments before. *)
Lemma normalize_shape joined L c x :
  JS.split "/" joined = L ++ [".vite"; String c x] →
  Path.endsWithSlash joined = false →
  String.eqb joined "" = false →
  String c x ≠ "." → String c x ≠ ".." →
  Path.normalize joined =
    (if JS.startsWith "/" joined then "/" else "") +:+
    match rev (fold_left (Path.normStep (negb (JS.startsWith "/" joined))) L []) with
    | [] => ""
    | l => String.concat "/" l +:+ "/"
    end +:+ ".vite" +:+ "/" +:+ String c x.
Proof.
  intros Hsplit Hend Hne Hdot Hdots.
  unfold Path.normalize, Path.normalizeString, JS.join.
  rewrite Hne, Hend, Hsplit, fold_left_app. cbn [fold_left].
  rewrite (normStep_plain _ _ ".vite") by done.
  rewrite (normStep_plain _ _ (String c x))
    by (try done; by apply String.eqb_neq).
  cbn [rev]. rewrite <- app_assoc. cbn [app]. rewrite concat_snoc2.
  change (".vite" +:+ "/" +:+ String c x)
    with (String "." ("vite" +:+ "/" +:+ String c x)).
  destruct (rev _) as [|s l0]; rewrite eqb_app_nonempty;
    by destruct (JS.startsWith "/" joined).
Qed.

Lemma startsWith_slash_app d a b :
  JS.startsWith "/" (String d a +:+ b) = JS.startsWith "/" (String d a).
Proof.
  unfold JS.startsWith. rewrite app_String, !prefix_cons.
  destruct (Ascii.ascii_dec "/" d); [by rewrite !prefix_empty|done].
Qed.

(** A key of [manifestJson]: whatever the working directory, it ends with
    [.vite/<key of the file>], after a part that depends on the working
    directory only. *)
Lemma manifest_key_shape cwd :
  ∃ Q, (JS.startsWith "/" cwd = true → JS.startsWith "/" Q = true) ∧
    ∀ c x, no_slash (String c x) → Path.endsWithSlash (String c x) = false →
      String c x ≠ "." → String c x ≠ ".." →
      Path.join [cwd; ".vite"; String c x] = Q +:+ ".vite" +:+ "/" +:+ String c x.
Proof.
  destruct cwd as [|d cwd].
  - exists "". split; [done|]. intros c x Hns Hend Hdot Hdots.
    unfold Path.join. cbn [List.filter String.eqb negb JS.join String.concat].
    rewrite (normalize_shape _ [] c x); [done| |done..].
    rewrite split_slash_app. by rewrite (split_no_slash (String c x)).
  - set (abs := JS.startsWith "/" (String d cwd)).
    exists ((if abs then "/" else "") +:+
            match rev (fold_left (Path.normStep (negb abs))
                         (JS.split "/" (String d cwd)) []) with
            | [] => ""
            | l => String.concat "/" l +:+ "/"
            end).
    split.
    + intros Habs. rewrite Habs. apply prefix_app_self.
    + intros c x Hns Hend Hdot Hdots.
      unfold Path.join. cbn [List.filter String.eqb negb JS.join String.concat].
      rewrite (normalize_shape _ (JS.split "/" (String d cwd)) c x);
        [| | |by rewrite app_String|done..].
      * rewrite startsWith_slash_app. fold abs. by rewrite !string_app_assoc.
      * rewrite !split_slash_app. by rewrite (split_no_slash (String c x)).
      * rewrite <- !string_app_assoc. by rewrite endsWithSlash_app.
Qed.

Lemma prefix_app_l p a b : String.prefix p a = true → String.prefix p (a +:+ b) = true.
Proof.
  revert a. induction p as [|c p IH]; intros a Ha; [apply prefix_empty|].
  destruct a as [|d a]; [done|]. rewrite app_String, prefix_cons in *.
  destruct (Ascii.ascii_dec c d); [by apply IH|done].
Qed.

Lemma loadPreloadModule_absent cwd :
  loadPreloadModule cwd None = Ok {| pm_manifestJson := ∅; pm_warnings := [] |}.
Proof. done. Qed.

(** ** The claims about the manifest *)

(** C2, as the code has it.  The keys of the loaded manifest are the keys
    of the file joined onto [<cwd>/.vite]: with the manifest of the example,
    the entries [<cwd>/.vite/client.ts] and [<cwd>/.vite/admin.ts] (when the
    normalization of entries leaves them as they are) resolve to exactly
    [a.js], [b.js], [c.js]; the bare entries [client.ts] and [admin.ts]
    resolve to nothing under an absolute working directory.  The lookup,
    concatenation and deduplication themselves are as the example says: on
    a mapping that had the bare keys, the bare entries would resolve to
    [a.js], [b.js], [c.js]. *)
Theorem C2_manifest_example_resolves_joined_keys cwd srv :
  let clientKey := Path.join [cwd; ".vite"; "client.ts"] in
  let adminKey := Path.join [cwd; ".vite"; "admin.ts"] in
  normalizeModule clientKey = clientKey →
  normalizeModule adminKey = adminKey →
  ∃ m, manifestJson cwd (Some Sample.manifestText) = Ok m ∧
       getDeps m [clientKey; adminKey] srv true = Some (["a.js"; "b.js"; "c.js"], []) ∧
       (JS.startsWith "/" cwd = true →
        getDeps m ["client.ts"; "admin.ts"] srv true = Some ([], [])) ∧
       getDeps (fromEntries [("client.ts", ["a.js"; "b.js"]); ("admin.ts", ["a.js"; "c.js"])])
               ["client.ts"; "admin.ts"] srv true
       = Some (["a.js"; "b.js"; "c.js"], []).
Proof.
  intros clientKey adminKey Hclient Hadmin.
  destruct (manifest_key_shape cwd) as (Q & HQ & Hshape).
  assert (clientKey = Q +:+ ".vite" +:+ "/" +:+ "client.ts") as Hck
    by (by apply Hshape).
  assert (adminKey = Q +:+ ".vite" +:+ "/" +:+ "admin.ts") as Hak
    by (by apply Hshape).
  assert (clientKey ≠ adminKey) as Hne.
  { rewrite Hck, Hak. intros Heq. by apply string_app_inj_l in Heq. }
  exists (<[adminKey := ["a.js"; "c.js"]]> (<[clientKey := ["a.js"; "b.js"]]> ∅)).
  split; [done|]. split; [|split; [|by rewrite getDeps_production]].
  - rewrite getDeps_production. cbn [map]. rewrite Hclient, Hadmin.
    cbn [flat_map]. unfold manifestAssets.
    rewrite lookup_insert_ne, lookup_insert_eq, lookup_insert_eq by done. done.
  - intros Habs. rewrite getDeps_production.
    assert (∀ r, JS.startsWith "/" (Q +:+ r) = true) as Hslash
      by (intros r; by apply prefix_app_l, HQ).
    assert (clientKey ≠ "client.ts") as H1
      by (intros Heq; rewrite Hck in Heq; specialize (Hslash (".vite" +:+ "/" +:+ "client.ts"));
          by rewrite Heq in Hslash).
    assert (adminKey ≠ "client.ts") as H2
      by (intros Heq; rewrite Hak in Heq; specialize (Hslash (".vite" +:+ "/" +:+ "admin.ts"));
          by rewrite Heq in Hslash).
    assert (clientKey ≠ "admin.ts") as H3
      by (intros Heq; rewrite Hck in Heq; specialize (Hslash (".vite" +:+ "/" +:+ "client.ts"));
          by rewrite Heq in Hslash).
    assert (adminKey ≠ "admin.ts") as H4
      by (intros Heq; rewrite Hak in Heq; specialize (Hslash (".vite" +:+ "/" +:+ "admin.ts"));
          by rewrite Heq in Hslash).
    cbn [map flat_map]. unfold manifestAssets.
    change (normalizeModule "client.ts") with "client.ts".
    change (normalizeModule "admin.ts") with "admin.ts".
    rewrite !lookup_insert_ne, !lookup_empty by done. done.
Qed.

Lemma C2_manifest_example_witness :
  ∃ m, manifestJson "/mock/project" (Some Sample.manifestText) = Ok m ∧
       getDeps m ["/mock/project/.vite/client.ts"; "/mock/project/.vite/admin.ts"]
               None true
       = Some (["a.js"; "b.js"; "c.js"], []) ∧
       (JS.startsWith "/" "/mock/project" = true →
        getDeps m ["client.ts"; "admin.ts"] None true = Some ([], [])) ∧
       getDeps (fromEntries [("client.ts", ["a.js"; "b.js"]); ("admin.ts", ["a.js"; "c.js"])])
               ["client.ts"; "admin.ts"] None true
       = Some (["a.js"; "b.js"; "c.js"], []).
Proof.
  exact (C2_manifest_example_resolves_joined_keys "/mock/project" None eq_refl eq_refl).
Defined.

(** With the entries as the specification writes them, nothing is found. *)
Lemma C2_bare_entries_counterexample :
  ∃ m, manifestJson "/mock/project" (Some Sample.manifestText) = Ok m ∧
       getDeps m ["client.ts"; "admin.ts"] None true = Some ([], []) ∧
       getDeps m ["client.ts"; "admin.ts"] None true
         ≠ Some (["a.js"; "b.js"; "c.js"], []).
Proof.
  eexists. split; [reflexivity|]. split; [by vm_compute|]. by vm_compute.
Qed.

(** C3, as the code does it: when the manifest file holds malformed JSON,
    loading the module raises the [SyntaxError] of [JSON.parse]; no warning
    is written, and no resolver with an empty manifest is left behind. *)
Theorem C3_malformed_manifest_aborts_module_load cwd raw :
  manifestJson cwd (Some (Malformed raw)) = Throw (SyntaxError raw) ∧
  loadPreloadModule cwd (Some (Malformed raw)) = Throw (SyntaxError raw) ∧
  ∀ pm, loadPreloadModule cwd (Some (Malformed raw)) ≠ Ok pm.
Proof. done. Qed.

(** ** Templating *)

Lemma split_aux_skip sep u r :
  JS.split_aux sep (String.length u) (u +:+ r) = JS.split_aux sep 0 r.
Proof.
  induction u as [|c u IH]; [done|]. rewrite app_String.
  cbn [String.length JS.split_aux]. apply IH.
Qed.

Lemma split_none sep s : JS.includes sep s = false → JS.split sep s = [s].
Proof.
  unfold JS.split. induction s as [|c s IH]; cbn [JS.includes JS.split_aux]; [done|].
  intros [Hp Hs]%orb_false_iff. by rewrite Hp, IH.
Qed.

Lemma split_first c sep s a r :
  first_split (String c sep) s a r →
  JS.split (String c sep) s = a :: JS.split (String c sep) r.
Proof.
  intros [-> Hfirst]. unfold JS.split. induction a as [|d a IH].
  - rewrite app_empty, app_String. cbn [JS.split_aux].
    change (String c (sep +:+ r)) with (String c sep +:+ r).
    rewrite prefix_app_self. cbn [String.length Nat.sub]. rewrite Nat.sub_0_r.
    by rewrite split_aux_skip.
  - cbn [no_match_in] in Hfirst. apply andb_true_iff in Hfirst as [Hd Ha].
    apply negb_true_iff in Hd. rewrite app_String. cbn [JS.split_aux].
    by rewrite Hd, (IH Ha).
Qed.

(** The templating routine on a shell with one head token and one body
    token. *)
Lemma assemble_tokens template p1 q p2 p3 head body :
  first_split "<!--app-head-->" template p1 q →
  JS.includes "<!--app-head-->" q = false →
  first_split "<!--app-html-->" q p2 p3 →
  JS.includes "<!--app-html-->" p3 = false →
  assemble template head body = Ok (p1 +:+ head +:+ p2 +:+ body +:+ p3).
Proof.
  intros Hhead Hq Hbody Hp3. unfold assemble.
  rewrite (split_first _ _ _ _ _ Hhead), (split_none _ _ Hq). cbn [hd lookup list_lookup].
  rewrite (split_first _ _ _ _ _ Hbody), (split_none _ _ Hp3). done.
Qed.


Lemma headSpan_first html a span t :
  first_split "<head>" html a (span +:+ "</head>" +:+ t) →
  JS.includes "<head>" (span +:+ "</head>" +:+ t) = false →
  no_match_in "</head>" span ("</head>" +:+ t) = true →
  headSpan html = Ok span.
Proof.
  intros Hopen Hnone Hclose. unfold headSpan.
  rewrite (split_first _ _ _ _ _ Hopen), (split_none _ _ Hnone).
  cbn [lookup list_lookup].
  by rewrite (split_first _ _ (span +:+ "</head>" +:+ t) span t).
Qed.

(** ** The claim about the head content *)




(** ** The main transition *)

Lemma applyHooks_config hooks :
  (∀ hook c c', hook ∈ hooks → hook c = Ok c' → config c' = config c) →
  ∀ c c', applyHooks hooks c = Ok c' → config c' = config c.
Proof.
  induction hooks as [|hook rest IH]; intros Hkeep c c'; simpl.
  - by intros [= <-].
  - destruct (hook c) as [c1|e] eqn:Hc; [|done]. intros Hrest.
    rewrite (IH (fun h' x y Hin => Hkeep h' x y (list_elem_of_further _ _ _ Hin))
                _ _ Hrest).
    apply (Hkeep hook); [left|done].
Qed.

(** C5. With the build flag, when the configuration hooks and the two
    builds return, the main transition materializes the environment and
    builds twice, first from the client-only production configuration, then
    from the SSR configuration (another output directory; the server
    registry, the client bootstrap and the client plugin registry as
    inputs), each folded through the configuration hooks; it then calls the
    stop callback once and returns: no server is created and nothing is
    mounted. *)
Theorem C5_build_flag_builds_twice_then_stops h w viteConfig viteConfigSSR :
  args_build h = true →
  getViteProdConfig false (configureViteHooks w) = Ok viteConfig →
  getViteProdConfig true (configureViteHooks w) = Ok viteConfigSSR →
  build h (config viteConfig) = Ok tt →
  build h (config viteConfigSSR) = Ok tt →
  ∃ w',
    postInitExpress h w = (Ok tt, w') ∧
    trace w' = trace w ++
      [EvMaterialize (serverPluginModules viteConfig) (clientPluginModules viteConfig);
       EvBuild (config viteConfig);
       EvMaterialize (serverPluginModules viteConfigSSR) (clientPluginModules viteConfigSSR);
       EvBuild (config viteConfigSSR);
       EvStop] ∧
    vite w' = vite w ∧ isProduction w' = isProduction w ∧ plugins w' = plugins w ∧
    build_ssr (config (prodConfig false)) = false ∧
    build_rollupOptions_input (config (prodConfig false)) = [] ∧
    build_outDir (config (prodConfig false)) = Some "./dist/client" ∧
    build_ssr (config (prodConfig true)) = true ∧
    build_rollupOptions_input (config (prodConfig true)) =
      ["./.vite/server.ts"; "./.vite/client.ts"; "./.vite/clientPlugins.ts"] ∧
    build_outDir (config (prodConfig true)) = Some "./dist/server" ∧
    ((∀ hook c c', hook ∈ configureViteHooks w → hook c = Ok c' → config c' = config c) →
     config viteConfig = config (prodConfig false) ∧
     config viteConfigSSR = config (prodConfig true)).
Proof.
  intros Hbuild Hc Hssr Hb1 Hb2.
  eexists. split.
  - unfold postInitExpress, bind at 1, get. rewrite Hbuild.
    unfold bind at 1, lift at 1. rewrite Hc.
    unfold bind at 1, createViteEnvironment, bind at 1, modify at 1, emit at 1, modify at 1.
    unfold bind at 1, runBuild at 1, bind at 1, emit at 1, modify at 1, lift at 1.
    rewrite Hb1.
    unfold bind at 1, lift at 1. rewrite Hssr.
    unfold bind at 1, bind at 1, modify at 1, emit at 1, modify at 1.
    unfold bind at 1, runBuild at 1, bind at 1, emit at 1, modify at 1, lift at 1.
    rewrite Hb2. unfold emit, modify. reflexivity.
  - cbn [trace vite isProduction plugins add_event set_fs].
    rewrite <- !app_assoc. repeat split; try done.
    + by apply (applyHooks_config (configureViteHooks w)).
    + by apply (applyHooks_config (configureViteHooks w)).
Qed.

Lemma C5_build_flag_witness :
  trace ((initExpress ;;; postInitExpress (Sample.host true false))
           (Sample.world "development")).2
  = [EvMaterialize ["example/server"] ["example/client"];
     EvBuild (config (prodConfig false));
     EvMaterialize ["example/server"] ["example/client"];
     EvBuild (config (prodConfig true));
     EvStop].
Proof.
  destruct (C5_build_flag_builds_twice_then_stops
              (Sample.host true false) (initExpress (Sample.world "development")).2
              {| config := config (prodConfig false);
                 clientPluginModules := ["example/client"];
                 serverPluginModules := ["example/server"] |}
              {| config := config (prodConfig true);
                 clientPluginModules := ["example/client"];
                 serverPluginModules := ["example/server"] |})
    as (w' & Hrun & Htrace & _); [by vm_compute..|].
  unfold bind. cbn [initExpress modify]. unfold initExpress, modify in *.
  cbn [snd] in *. rewrite Hrun. cbn [snd]. rewrite Htrace. by vm_compute.
Defined.

Lemma hookLoop_frame {A} (hooks : list A) (ev : A -> Event) (out : A -> HookOutcome) :
  ∀ w r w', forEach hooks (fun a => callHook (ev a) (out a)) w = (r, w') →
    vite w' = vite w ∧ isProduction w' = isProduction w.
Proof.
  induction hooks as [|a hooks IH]; intros w r w'; simpl.
  - by intros [= <- <-].
  - unfold bind at 1, callHook, bind at 1, emit, modify.
    destruct (out a) as [e|]; simpl.
    + by intros [= <- <-].
    + intros Hrest. by apply IH in Hrest as [-> ->].
Qed.

(** Serving in production never creates a development server. *)
Lemma postInitExpress_production h w res w' :
  vite w = None →
  args_build h = false →
  isProduction w = true ∨ args_preview h = true →
  postInitExpress h w = (res, w') →
  vite w' = None ∧ isProduction w' = true.
Proof.
  intros Hvite Hbuild Hprod. unfold postInitExpress, bind at 1, get. rewrite Hbuild.
  set (w1 := if args_preview h then set_isProduction true w else w).
  assert (vite w1 = None ∧ isProduction w1 = true) as [Hv1 Hp1].
  { unfold w1. destruct (args_preview h); [done|]. by destruct Hprod. }
  assert ((if args_preview h then modify (set_isProduction true) else ret tt) w
          = (Ok tt, w1)) as Hstep.
  { unfold w1. by destruct (args_preview h). }
  unfold bind at 1. rewrite Hstep.
  intros [([] & w2 & Hrestart & Hrun)|(e & Hrestart & ->)]%bind_inv.
  2:{ unfold restartServer, bind at 1, get in Hrestart. rewrite Hp1 in Hrestart.
      cbn [negb] in Hrestart. unfold bind at 1, bind at 1, emit, modify in Hrestart.
      by apply reloadPlugins_run in Hrestart as (_ & _ & _ & -> & -> & _). }
  assert (vite w2 = None ∧ isProduction w2 = true) as [Hv2 Hp2].
  { unfold restartServer, bind at 1, get in Hrestart. rewrite Hp1 in Hrestart.
    cbn [negb] in Hrestart. unfold bind at 1, bind at 1, emit, modify in Hrestart.
    by apply reloadPlugins_run in Hrestart as (_ & _ & _ & -> & -> & _). }
  unfold bind at 1, emit at 1, modify at 1 in Hrun.
  unfold bind at 1, modify at 1 in Hrun.
  apply bind_inv in Hrun as [([] & w3 & Hinit & Hrun)|(e & Hinit & ->)].
  - apply hookLoop_frame in Hinit as [Hv3 Hp3].
    apply hookLoop_frame in Hrun as [-> ->]. by rewrite Hv3, Hp3.
  - by apply hookLoop_frame in Hinit as [-> ->].
Qed.

(** ** The claim about the resolver given to the plugins *)

(** C1, as the code does it: once the orchestrator serves in production
    mode (production environment or preview flag), the [getDeps] member of
    the [RuntimeContext] answers the empty list for every entry list and
    every manifest: it calls the resolver without the production flag and
    without a development server, so the manifest is never looked up. *)
Theorem C1_production_getDeps_ignores_manifest h pm w res w' modules :
  vite w = None →
  args_build h = false →
  isProduction w = true ∨ args_preview h = true →
  postInitExpress h w = (res, w') →
  initVite_mode w' = "prod" ∧
  initVite_getDeps pm w' modules = Some ([], []).
Proof.
  intros Hvite Hbuild Hprod Hrun.
  destruct (postInitExpress_production h w res w' Hvite Hbuild Hprod Hrun) as [Hv Hp].
  unfold initVite_mode, initVite_getDeps. rewrite Hv, Hp.
  split; [done|]. apply getDeps_no_server.
Qed.

Lemma C1_production_getDeps_witness :
  initVite_getDeps
    {| pm_manifestJson := {["/app/.vite/client.ts" := ["a.js"; "b.js"]]}; pm_warnings := [] |}
    (postInitExpress (Sample.host false false) Sample.initializedProdWorld).2
    ["/app/.vite/client.ts"]
  = Some ([], []) ∧
  getDeps {["/app/.vite/client.ts" := ["a.js"; "b.js"]]} ["/app/.vite/client.ts"] None true
  = Some (["a.js"; "b.js"], []).
Proof.
  split; [|by vm_compute].
  eapply (C1_production_getDeps_ignores_manifest (Sample.host false false) _
            Sample.initializedProdWorld
            (postInitExpress (Sample.host false false) Sample.initializedProdWorld).1).
  - done.
  - done.
  - by left.
  - by destruct (postInitExpress _ _).
Defined.

(** * Further properties of the resolver *)

(** ** The resolver on every input *)



Lemma elem_of_flat_map {A B} (f : A → list B) (l : list A) (y : B) :
  y ∈ flat_map f l ↔ ∃ x, x ∈ l ∧ y ∈ f x.
Proof.
  rewrite list_elem_of_In, in_flat_map. split.
  - intros (x & Hx & Hy). exists x. by rewrite !list_elem_of_In.
  - intros (x & Hx & Hy). exists x. by rewrite <- !list_elem_of_In.
Qed.

Lemma flat_map_nil {A B} (f : A → list B) (l : list A) :
  (∀ x, x ∈ l → f x = []) → flat_map f l = [].
Proof.
  induction l as [|x l IH]; intros Hf; [done|]. cbn [flat_map].
  rewrite (Hf x) by left. apply IH. intros y Hy. apply Hf. by right.
Qed.

(** X2. On a module graph keyed by the identifiers of its nodes and whose
    backend answers, the list [getDeps] returns in development mode for a
    list of entries holds exactly the rewritten URLs of the nodes reachable
    from some entry, and no warning is written. *)
Theorem X2_dev_result_is_union_of_reachable manifestJson srv modules :
  wf_graph (moduleGraph srv) →
  (∀ k, lookupThrows (moduleGraph srv) k = None) →
  ∃ res,
    getDeps manifestJson modules (Some srv) false = Some (res, []) ∧
    ∀ u, u ∈ res ↔
         ∃ m k, m ∈ modules ∧ reachable (moduleGraph srv) (normalizeModule m) k ∧
                u = getOptimizedUrl k.
Proof.
  intros Hwf Hno. set (g := moduleGraph srv) in *.
  rewrite getDeps_development. fold g.
  assert (∀ m, ∃ seen, collectDepsDev g m [] = Some (Ok seen) ∧
                       ∀ k, k ∈ seen ↔ reachable g m k) as Hreach.
  { intros m. destruct (collectDepsDev_reachable g Hno Hwf m) as (seen & Hs & _ & Hr).
    by exists seen. }
  eexists. split.
  - f_equal. f_equal. apply flat_map_nil. intros m _.
    destruct (Hreach m) as (seen & Hs & _). unfold entryWarnings. by rewrite Hs.
  - intros u. rewrite set_from_elem, elem_of_flat_map. split.
    + intros (e & He & Hu). apply list_elem_of_fmap in He as (m & -> & Hm).
      destruct (Hreach (normalizeModule m)) as (seen & Hs & Hr).
      unfold entryAssets in Hu. rewrite Hs in Hu.
      apply list_elem_of_fmap in Hu as (k & -> & Hk).
      exists m, k. split; [done|]. split; [by apply Hr|done].
    + intros (m & k & Hm & Hk & ->). exists (normalizeModule m).
      split; [apply list_elem_of_fmap; by exists m|].
      destruct (Hreach (normalizeModule m)) as (seen & Hs & Hr).
      unfold entryAssets. rewrite Hs. apply list_elem_of_fmap. exists k.
      split; [done|]. by apply Hr.
Qed.

Lemma X2_dev_result_witness :
  getDeps ∅ ["/C"; "/@fs/B"] (Some (Sample.server Sample.cyclic)) false
  = Some (["/@fs/C"; "/@fs/B"; "/@fs/A"], []) ∧
  ∃ m k, m ∈ ["/C"; "/@fs/B"] ∧ reachable Sample.cyclic (normalizeModule m) k ∧
         "/@fs/A" = getOptimizedUrl k.
Proof.
  destruct (X2_dev_result_is_union_of_reachable
              ∅ (Sample.server Sample.cyclic) ["/C"; "/@fs/B"] cyclic_wf (fun _ => eq_refl))
    as (res & Hres & Hu).
  vm_compute in Hres. injection Hres as <-. split; [by vm_compute|].
  apply Hu. set_solver.
Defined.



(** ** The order of a traversal *)

Lemma forEachDep_prefix rec :
  (∀ d s r, rec d s = Some (Ok r) → s `prefix_of` r) →
  ∀ deps s r, forEachDep rec deps s = Some (Ok r) → s `prefix_of` r.
Proof.
  intros Hrec deps. induction deps as [|dep rest IH]; intros s r; simpl.
  - by intros [= <-].
  - destruct (JS.truthy dep); [|apply IH].
    destruct (rec (default "" dep) s) as [[s1|err]|] eqn:Hc; [|done..].
    intros Hloop. etrans; [by apply (Hrec _ _ _ Hc)|by apply IH].
Qed.

Lemma collectDepsDev_fuel_prefix g fuel :
  ∀ entryId seen r,
    collectDepsDev_fuel fuel g entryId seen = Some (Ok r) → seen `prefix_of` r.
Proof.
  induction fuel as [|fuel IH]; intros entryId seen r; [done|]. simpl.
  destruct (getModuleById g entryId) as [[node|]|err]; [| |done].
  - destruct (negb (JS.truthy (node_id node))); [by intros [= <-]|].
    destruct (set_has (default "" (node_id node)) seen); [by intros [= <-]|].
    intros Hloop. apply (forEachDep_prefix _ IH) in Hloop.
    etrans; [|done]. by apply prefix_app_r.
  - by intros [= <-].
Qed.

Lemma set_from_cons x l : ∃ rest, set_from (x :: l) = x :: rest.
Proof. rewrite set_from_firstOccurrences. cbn [firstOccurrences]. by eexists. Qed.

(** X3. A traversal only appends to the set it is given: what was in the
    set stays in front, in its order.  So the list [getDeps] returns in
    development mode for one entry that is a module with an identifier,
    when no warning is written, starts with the rewritten URL of that
    module itself. *)
Theorem X3_traversal_appends_and_lists_the_entry_first manifestJson srv entry :
  (∀ seen r, collectDepsDev (moduleGraph srv) entry seen = Some (Ok r) →
             seen `prefix_of` r) ∧
  (∀ node res,
     getModuleById (moduleGraph srv) (normalizeModule entry) = Ok (Some node) →
     JS.truthy (node_id node) = true →
     getDeps manifestJson [entry] (Some srv) false = Some (res, []) →
     ∃ rest, res = getOptimizedUrl (default "" (node_id node)) :: rest).
Proof.
  split.
  - intros seen r. apply collectDepsDev_fuel_prefix.
  - intros node res Hget Ht. rewrite getDeps_development. cbn [map flat_map].
    rewrite !app_nil_r. unfold entryAssets, entryWarnings.
    destruct (collectDepsDev_returns (moduleGraph srv) (normalizeModule entry))
      as ([r|err] & Hc); rewrite Hc; [|done].
    intros [= <-].
    assert ([default "" (node_id node)] `prefix_of` r) as [rest ->].
    { revert Hc. unfold collectDepsDev. cbn [collectDepsDev_fuel].
      rewrite Hget, Ht. cbn [negb set_has]. simpl.
      intros Hloop.
      by apply (forEachDep_prefix _ (collectDepsDev_fuel_prefix _ _)) in Hloop. }
    cbn [app map]. apply set_from_cons.
Qed.

Lemma X3_traversal_order_witness :
  getDeps ∅ ["/B"] (Some (Sample.server Sample.cyclic)) false
  = Some (["/@fs/B"; "/@fs/A"; "/@fs/C"], []) ∧
  ∃ rest, ["/@fs/B"; "/@fs/A"; "/@fs/C"] = getOptimizedUrl "/B" :: rest.
Proof.
  split; [by vm_compute|].
  destruct (X3_traversal_appends_and_lists_the_entry_first
              ∅ (Sample.server Sample.cyclic) "/B") as [_ Hfirst].
  apply (Hfirst {| node_id := Some "/B"; importedModules := [Some "/A"; Some "/C"] |});
    by vm_compute.
Defined.

(** ** Entries that are no modules *)

Lemma collectDepsDev_unknown g k :
  lookupThrows g k = None →
  (∀ node, idToModuleMap g !! k = Some node → JS.truthy (node_id node) = false) →
  collectDepsDev g k [] = Some (Ok []).
Proof.
  intros Hno Hid. unfold collectDepsDev, getModuleById. cbn [collectDepsDev_fuel].
  unfold getModuleById. rewrite Hno.
  destruct (idToModuleMap g !! k) as [node|]; [|done].
  by rewrite (Hid node eq_refl).
Qed.

(** X4. In development mode an entry the module graph does not know, or
    whose module has no identifier, is passed over: it adds no asset and no
    warning, wherever it stands in the list of entries. *)
Theorem X4_unknown_entries_contribute_nothing manifestJson srv before x after :
  lookupThrows (moduleGraph srv) (normalizeModule x) = None →
  (∀ node, idToModuleMap (moduleGraph srv) !! normalizeModule x = Some node →
           JS.truthy (node_id node) = false) →
  getDeps manifestJson (before ++ x :: after) (Some srv) false =
  getDeps manifestJson (before ++ after) (Some srv) false.
Proof.
  intros Hno Hid. rewrite !getDeps_development.
  rewrite !map_app, !flat_map_app. cbn [map flat_map].
  unfold entryAssets at 2, entryWarnings at 2.
  by rewrite (collectDepsDev_unknown _ _ Hno Hid).
Qed.

Lemma X4_unknown_entries_witness :
  getDeps ∅ (["/src/main.ts"] ++ "/src/nonexistent.ts" :: ["/src/utils/helper.ts"])
          (Some (Sample.server Sample.mock)) false
  = getDeps ∅ (["/src/main.ts"] ++ ["/src/utils/helper.ts"])
            (Some (Sample.server Sample.mock)) false.
Proof.
  apply (X4_unknown_entries_contribute_nothing
           ∅ (Sample.server Sample.mock) ["/src/main.ts"] "/src/nonexistent.ts"
           ["/src/utils/helper.ts"]).
  - reflexivity.
  - intros node Hnode. by vm_compute in Hnode.
Defined.

(** ** Traversals that meet a raising lookup *)

Section Answered.

Variable g : ModuleGraph.
Hypothesis wf : wf_graph g.

Lemma forEachDep_answered rec :
  (∀ d s r, rec d s = Some (Ok r) →
            s ⊆ r ∧ lookupThrows g d = None ∧ answered g s r) →
  ∀ deps s r, forEachDep rec deps s = Some (Ok r) →
    s ⊆ r ∧
    (∀ d, Some d ∈ deps → d ≠ "" → lookupThrows g d = None) ∧
    answered g s r.
Proof.
  intros Hrec deps. induction deps as [|dep rest IH]; intros s r; simpl.
  - intros [= <-]. split; [done|]. split; [by intros d ?%elem_of_nil|].
    by intros k n d Hk Hks.
  - destruct (JS.truthy dep) eqn:Ht.
    + apply truthy_Some in Ht as (d0 & -> & Hd0). simpl.
      destruct (rec d0 s) as [[s1|err]|] eqn:Hc; [|done..].
      intros Hloop. apply IH in Hloop as (Hsub & Hdeps & Hans).
      apply Hrec in Hc as (Hsub1 & Hd0ok & Hans1).
      split; [set_solver|]. split.
      * intros d [[= ->]|Hd]%elem_of_cons Hne; [done|by apply Hdeps].
      * intros k n d Hk Hks. destruct (decide (k ∈ s1)) as [Hk1|Hk1].
        -- by apply (Hans1 k).
        -- by apply (Hans k).
    + intros Hloop. apply IH in Hloop as (Hsub & Hdeps & Hans).
      split; [done|]. split; [|done].
      intros d [Hd|Hd]%elem_of_cons Hne; [|by apply Hdeps].
      subst dep. simpl in Ht. apply negb_false_iff, String.eqb_eq in Ht. done.
Qed.

Lemma collectDepsDev_fuel_answered fuel :
  ∀ entryId s r,
    collectDepsDev_fuel fuel g entryId s = Some (Ok r) →
    s ⊆ r ∧ lookupThrows g entryId = None ∧ answered g s r.
Proof.
  induction fuel as [|fuel IH]; intros entryId s r; [done|]. simpl.
  unfold getModuleById. destruct (lookupThrows g entryId) as [e|]; [done|].
  assert (answered g s s) as Hrefl by (by intros k n d Hk Hks).
  destruct (idToModuleMap g !! entryId) as [node|] eqn:Hnode;
    [|by intros [= <-]].
  destruct (JS.truthy (node_id node)) eqn:Ht; simpl; [|by intros [= <-]].
  rewrite (wf _ _ Hnode Ht). simpl.
  destruct (set_has entryId s); [by intros [= <-]|].
  intros Hloop. apply (forEachDep_answered _ IH) in Hloop as (Hsub & Hdeps & Hans).
  split; [set_solver|]. split; [done|].
  intros k n d Hk Hks Hn Hd Hne. destruct (decide (k = entryId)) as [->|Hk'].
  - assert (n = node) as -> by congruence. by apply Hdeps.
  - apply (Hans k n); [done|set_solver|done..].
Qed.

End Answered.

(** X27. On a module graph keyed by node ids, a traversal that returns
    met no raising lookup: the backend answered for the entry and for every
    import of every node in the returned set.  So when a module imports an
    identifier on which the backend raises, the entry of that module yields
    no asset at all, only a warning, the nodes visited before the failure
    included. *)
Theorem X27_traversal_that_returns_met_no_raising_lookup manifestJson srv entry :
  wf_graph (moduleGraph srv) →
  (∀ r, collectDepsDev (moduleGraph srv) entry [] = Some (Ok r) →
        lookupThrows (moduleGraph srv) entry = None ∧
        ∀ k n d, k ∈ r → idToModuleMap (moduleGraph srv) !! k = Some n →
                 Some d ∈ importedModules n → d ≠ "" →
                 lookupThrows (moduleGraph srv) d = None) ∧
  (∀ n d e,
     normalizeModule entry = entry →
     idToModuleMap (moduleGraph srv) !! entry = Some n →
     JS.truthy (node_id n) = true →
     Some d ∈ importedModules n → d ≠ "" →
     lookupThrows (moduleGraph srv) d = Some e →
     ∃ e', getDeps manifestJson [entry] (Some srv) false
           = Some ([], [warningFor entry e'])).
Proof.
  intros Hwf. set (g := moduleGraph srv) in *.
  assert (∀ r, collectDepsDev g entry [] = Some (Ok r) →
               lookupThrows g entry = None ∧
               ∀ k n d, k ∈ r → idToModuleMap g !! k = Some n →
                        Some d ∈ importedModules n → d ≠ "" →
                        lookupThrows g d = None) as Hok.
  { intros r Hr. apply (collectDepsDev_fuel_answered g Hwf) in Hr as (_ & Hentry & Hans).
    split; [done|]. intros k n d Hk. apply Hans; [done|apply not_elem_of_nil]. }
  split; [done|].
  intros n d e Hnorm Hn Ht Hd Hne Hthrow.
  rewrite getDeps_development. fold g. cbn [map flat_map]. rewrite Hnorm, !app_nil_r.
  unfold entryAssets, entryWarnings.
  destruct (collectDepsDev_returns g entry) as ([r|e'] & Hr); rewrite Hr.
  - exfalso. destruct (Hok r Hr) as [Hentry Hans].
    assert (entry ∈ r) as Hin.
    { pose proof Hr as Hfirst. unfold collectDepsDev in Hfirst.
      cbn [collectDepsDev_fuel] in Hfirst. unfold getModuleById in Hfirst.
      rewrite Hentry, Hn, Ht in Hfirst. cbn [negb set_has] in Hfirst.
      rewrite (Hwf _ _ Hn Ht) in Hfirst. simpl in Hfirst.
      apply (forEachDep_prefix _ (collectDepsDev_fuel_prefix _ _)) in Hfirst
        as [rest ->]. set_solver. }
    rewrite (Hans entry n d Hin Hn Hd Hne) in Hthrow. done.
  - by exists e'.
Qed.

Lemma brittle_wf : wf_graph Sample.brittle.
Proof.
  intros k n Hn _. unfold Sample.brittle in Hn. simpl in Hn.
  repeat (rewrite lookup_insert in Hn; case_decide;
          [subst k; by injection Hn as <-|]).
  by rewrite lookup_empty in Hn.
Qed.

Lemma X27_traversal_witness :
  getDeps ∅ ["/A"] (Some (Sample.server Sample.brittle)) false
  = Some ([], [warningFor "/A" (Thrown "Module graph error")]) ∧
  getDeps ∅ ["/B"] (Some (Sample.server Sample.brittle)) false
  = Some (["/@fs/B"], []).
Proof.
  destruct (X27_traversal_that_returns_met_no_raising_lookup
              ∅ (Sample.server Sample.brittle) "/A" brittle_wf) as [_ Hraise].
  destruct (Hraise {| node_id := Some "/A";
                      importedModules := [Some "/B"; Some "/src/error.ts"] |}
                   "/src/error.ts" (Thrown "Module graph error"))
    as (e' & He'); [by vm_compute..| |done|by vm_compute|].
  { right. left. }
  split; [|by vm_compute]. rewrite He'. vm_compute in He'. by injection He' as <-.
Defined.

(** ** Production lookups *)



(** ** Entries given as URLs *)

Lemma normalizeModule_fs key :
  JS.startsWith "/" key = true → normalizeModule ("/@fs" +:+ key) = key.
Proof.
  destruct key as [|c key]; [done|]. unfold JS.startsWith. rewrite prefix_cons.
  destruct (Ascii.ascii_dec "/" c) as [<-|]; [|done]. intros _.
  unfold normalizeModule, JS.startsWith. rewrite !app_String, app_empty.
  rewrite !prefix_cons.
  repeat match goal with
         | |- context [Ascii.ascii_dec ?a ?a] =>
             destruct (Ascii.ascii_dec a a) as [_|Hne]; [|by destruct Hne]
         end.
  by rewrite prefix_empty.
Qed.

Lemma normalizeModule_file key : normalizeModule ("file://" +:+ key) = key.
Proof.
  unfold normalizeModule, JS.startsWith. rewrite !app_String, app_empty.
  rewrite (prefix_neq_head "/" "f") by discriminate.
  rewrite !prefix_cons.
  repeat match goal with
         | |- context [Ascii.ascii_dec ?a ?a] =>
             destruct (Ascii.ascii_dec a a) as [_|Hne]; [|by destruct Hne]
         end.
  by rewrite prefix_empty.
Qed.

(** X6. An entry written as a [/@fs] URL or as a [file://] URL addresses
    the module of the path behind the prefix: in either mode, [/@fs<path>]
    (for a path that starts with a slash) and [file://<path>] resolve like
    [<path>] itself, when [<path>] is not such a URL in turn. *)
Theorem X6_url_entries_resolve_like_their_path manifestJson srv isProduction key others :
  normalizeModule key = key →
  (JS.startsWith "/" key = true →
   getDeps manifestJson (("/@fs" +:+ key) :: others) srv isProduction =
   getDeps manifestJson (key :: others) srv isProduction) ∧
  getDeps manifestJson (("file://" +:+ key) :: others) srv isProduction =
  getDeps manifestJson (key :: others) srv isProduction.
Proof.
  intros Hkey. unfold getDeps. cbn [map]. rewrite normalizeModule_file, Hkey.
  split; [|done]. intros Hslash. by rewrite (normalizeModule_fs _ Hslash).
Qed.

Lemma X6_url_entries_witness :
  getDeps {["/app/.vite/client.ts" := ["a.js"; "b.js"]]} ["/@fs/app/.vite/client.ts"]
          None true
  = Some (["a.js"; "b.js"], []) ∧
  getDeps {["/app/.vite/client.ts" := ["a.js"; "b.js"]]} ["file:///app/.vite/client.ts"]
          None true
  = Some (["a.js"; "b.js"], []).
Proof.
  destruct (X6_url_entries_resolve_like_their_path
              {["/app/.vite/client.ts" := ["a.js"; "b.js"]]} None true
              "/app/.vite/client.ts" [] eq_refl) as [Hfs Hfile].
  split.
  - change "/@fs/app/.vite/client.ts" with ("/@fs" +:+ "/app/.vite/client.ts").
    rewrite (Hfs eq_refl). by vm_compute.
  - change "file:///app/.vite/client.ts" with ("file://" +:+ "/app/.vite/client.ts").
    rewrite Hfile. by vm_compute.
Defined.

(** ** The keys of the loaded manifest *)







(** ** Package keys *)

Lemma lastIndexOf_from_some p s :
  JS.includes p s = true → ∀ i, ∃ j, JS.lastIndexOf_from p s i = Some j.
Proof.
  induction s as [|c s IH]; cbn [JS.includes JS.lastIndexOf_from]; intros Hs i.
  - rewrite orb_false_r in Hs. rewrite Hs. by eexists.
  - destruct (JS.includes p s) eqn:Hin.
    + destruct (IH eq_refl (S i)) as (j & ->). by eexists.
    + rewrite orb_false_r in Hs. rewrite Hs.
      rewrite (lastIndexOf_from_none _ _ Hin). by eexists.
Qed.

(** The last [node_modules/] of a path and what follows it. *)
Lemma lastIndexOf_node_modules pre tail :
  JS.includes "node_modules/" tail = false →
  JS.lastIndexOf "node_modules/" (pre +:+ "node_modules/" +:+ tail)
  = Some (String.length pre).
Proof.
  intros Hlast. unfold JS.lastIndexOf.
  apply lastIndexOf_from_app.
  rewrite !app_String, !app_empty. cbn [JS.lastIndexOf_from].
  rewrite (lastIndexOf_from_none _ _ Hlast). prefix_mismatch.
  change (String "n" (String "o" (String "d" (String "e" (String "_" (String "m"
            (String "o" (String "d" (String "u" (String "l" (String "e" (String "s"
            (String "/" tail)))))))))))))
    with ("node_modules/" +:+ tail).
  by rewrite prefix_app_self.
Qed.

Lemma extractPackageName_after pre tail :
  JS.includes "node_modules/" tail = false →
  extractPackageName (pre +:+ "node_modules/" +:+ tail) =
  let parts := JS.split "/" tail in
  if JS.startsWith "@" (hd "" parts) then
    match parts with
    | _ :: parts1 :: _ => Some (hd "" parts +:+ "_" +:+ parts1)
    | _ => Some (hd "" parts)
    end
  else Some (hd "" parts).
Proof.
  intros Hlast. unfold extractPackageName.
  rewrite (lastIndexOf_node_modules _ _ Hlast), substring_app.
  rewrite !app_String, !app_empty. by cbn [JS.substring String.length].
Qed.

Lemma prefix_inv p s : String.prefix p s = true → ∃ t, s = p +:+ t.
Proof.
  revert s. induction p as [|c p IH]; intros s Hs; [by exists s|].
  destruct s as [|d s]; [done|]. rewrite prefix_cons in Hs.
  destruct (Ascii.ascii_dec c d) as [<-|]; [|done].
  destruct (IH s Hs) as (t & ->). by exists t.
Qed.

Lemma includes_inv p s : JS.includes p s = true → ∃ a t, s = a +:+ p +:+ t.
Proof.
  induction s as [|c s IH]; cbn [JS.includes]; intros Hs.
  - rewrite orb_false_r in Hs. destruct (prefix_inv _ _ Hs) as (t & Ht).
    by exists "", t.
  - apply orb_true_iff in Hs as [Hs|Hs].
    + destruct (prefix_inv _ _ Hs) as (t & Ht). by exists "", t.
    + destruct (IH Hs) as (a & t & ->). by exists (String c a), t.
Qed.

Lemma includes_app p a t : JS.includes p (a +:+ p +:+ t) = true.
Proof. apply includes_app_r, includes_self. Qed.

(** A string without a separator holds no [node_modules/]. *)
Lemma no_slash_no_node_modules s :
  no_slash s → JS.includes "node_modules/" s = false.
Proof.
  unfold no_slash. intros Hs. destruct (JS.includes "node_modules/" s) eqn:Hin; [|done].
  destruct (includes_inv _ _ Hin) as (a & t & ->).
  change ("node_modules/" +:+ t) with ("node_modules" +:+ "/" +:+ t) in Hs.
  rewrite <- string_app_assoc in Hs. by rewrite includes_app in Hs.
Qed.

Lemma includes_node_modules pre tail :
  JS.includes "node_modules" (pre +:+ "node_modules/" +:+ tail) = true.
Proof.
  change ("node_modules/" +:+ tail) with ("node_modules" +:+ "/" +:+ tail).
  apply includes_app.
Qed.

(** X9. A path into an unscoped package, [<pre>node_modules/<pkg>/<rest>]
    with no later [node_modules/], has the package key [<pkg>]; unless the
    path is already a served URL or lies in the optimization cache, it is
    rewritten to [/node_modules/.vite/deps/<pkg>.js], and to its [/@fs/] URL
    when [<pkg>] is empty. *)
Theorem X9_unscoped_package_key pre pkg rest :
  no_slash pkg →
  JS.startsWith "@" pkg = false →
  JS.includes "node_modules/" (pkg +:+ "/" +:+ rest) = false →
  extractPackageName (pre +:+ "node_modules/" +:+ pkg +:+ "/" +:+ rest) = Some pkg ∧
  (JS.startsWith "/@id/" (pre +:+ "node_modules/" +:+ pkg +:+ "/" +:+ rest) = false →
   JS.startsWith "/@fs/" (pre +:+ "node_modules/" +:+ pkg +:+ "/" +:+ rest) = false →
   JS.startsWith "/node_modules/.vite/deps/"
     (pre +:+ "node_modules/" +:+ pkg +:+ "/" +:+ rest) = false →
   JS.includes ".vite/deps" (pre +:+ "node_modules/" +:+ pkg +:+ "/" +:+ rest) = false →
   getOptimizedUrl (pre +:+ "node_modules/" +:+ pkg +:+ "/" +:+ rest) =
   if String.eqb pkg ""
   then Path.join ["/@fs/"; pre +:+ "node_modules/" +:+ pkg +:+ "/" +:+ rest]
   else "/node_modules/.vite/deps/" +:+ pkg +:+ ".js").
Proof.
  intros Hpkg Hat Hlast.
  assert (extractPackageName (pre +:+ "node_modules/" +:+ pkg +:+ "/" +:+ rest) = Some pkg)
    as Hkey.
  { rewrite (extractPackageName_after _ _ Hlast). cbn zeta.
    rewrite split_slash_app, (split_no_slash pkg Hpkg). cbn [app hd]. by rewrite Hat. }
  split; [done|]. intros H1 H2 H3 Hvd. unfold getOptimizedUrl.
  rewrite H1, H2, H3, Hvd, Hkey, includes_node_modules. cbn [orb andb negb default JS.truthy].
  by destruct (String.eqb pkg "").
Qed.

Lemma X9_unscoped_package_witness :
  extractPackageName "/project/node_modules/lodash/index.js" = Some "lodash" ∧
  getOptimizedUrl "/project/node_modules/lodash/index.js"
  = "/node_modules/.vite/deps/lodash.js".
Proof.
  destruct (X9_unscoped_package_key "/project/" "lodash" "index.js") as [Hkey Hurl];
    [done..|].
  split; [exact Hkey|]. by apply Hurl.
Defined.

(** X10. The package key of a path is absent exactly when the path holds
    no [node_modules/]; such a path, one that only ends with
    [node_modules] included, is rewritten to its [/@fs/] URL unless it is
    already a served URL. *)
Theorem X10_no_package_key_without_node_modules_segment id :
  (extractPackageName id = None ↔ JS.includes "node_modules/" id = false) ∧
  (JS.includes "node_modules/" id = false →
   JS.startsWith "/@id/" id = false → JS.startsWith "/@fs/" id = false →
   JS.startsWith "/node_modules/.vite/deps/" id = false →
   getOptimizedUrl id = Path.join ["/@fs/"; id]).
Proof.
  assert (JS.includes "node_modules/" id = false → extractPackageName id = None) as Hnone.
  { intros Hin. unfold extractPackageName, JS.lastIndexOf.
    by rewrite (lastIndexOf_from_none _ _ Hin). }
  split; [split; [|done]|].
  - intros Hkey. destruct (JS.includes "node_modules/" id) eqn:Hin; [|done].
    unfold extractPackageName, JS.lastIndexOf in Hkey.
    destruct (lastIndexOf_from_some _ _ Hin 0) as (j & Hj). rewrite Hj in Hkey.
    by destruct (JS.startsWith _ _); [destruct (JS.split _ _) as [|? [|? ?]]|].
  - intros Hin H1 H2 H3. unfold getOptimizedUrl.
    rewrite H1, H2, H3, (Hnone Hin). cbn [orb JS.truthy]. by destruct (_ && _).
Qed.

Lemma X10_no_package_key_witness :
  JS.includes "node_modules" "/project/node_modules" = true ∧
  getOptimizedUrl "/project/node_modules" = "/@fs/project/node_modules".
Proof.
  split; [done|].
  destruct (X10_no_package_key_without_node_modules_segment "/project/node_modules")
    as [_ Hurl].
  by rewrite Hurl.
Defined.

(** X11. The package key of a scoped package given without a file below
    it: [<pre>node_modules/@<scope>/<name>] has the key [@<scope>_<name>]
    (so [@<scope>_] when the path ends with the slash), and
    [<pre>node_modules/@<scope>] alone has the key [@<scope>]. *)
Theorem X11_scoped_package_directory_key pre scope name :
  no_slash scope →
  no_slash name →
  JS.includes "node_modules/" ("@" +:+ scope +:+ "/" +:+ name) = false →
  extractPackageName (pre +:+ "node_modules/" +:+ "@" +:+ scope +:+ "/" +:+ name)
  = Some ("@" +:+ scope +:+ "_" +:+ name) ∧
  extractPackageName (pre +:+ "node_modules/" +:+ "@" +:+ scope) = Some ("@" +:+ scope).
Proof.
  intros Hscope Hname Hlast.
  assert (no_slash ("@" +:+ scope)) as Hat.
  { unfold no_slash in *. rewrite app_String, app_empty. cbn [JS.includes].
    by rewrite prefix_neq_head by discriminate. }
  split.
  - change ("node_modules/" +:+ "@" +:+ scope +:+ "/" +:+ name)
      with ("node_modules/" +:+ ("@" +:+ scope +:+ "/" +:+ name)).
    rewrite (extractPackageName_after _ _ Hlast). cbn zeta.
    change ("@" +:+ scope +:+ "/" +:+ name) with (("@" +:+ scope) +:+ "/" +:+ name).
    rewrite split_slash_app, (split_no_slash _ Hat), (split_no_slash _ Hname).
    cbn [app hd]. unfold JS.startsWith. by rewrite prefix_app_self.
  - change ("node_modules/" +:+ "@" +:+ scope)
      with ("node_modules/" +:+ ("@" +:+ scope)).
    rewrite (extractPackageName_after _ _ (no_slash_no_node_modules _ Hat)). cbn zeta.
    rewrite (split_no_slash _ Hat). cbn [hd]. unfold JS.startsWith.
    by rewrite prefix_app_self.
Qed.

Lemma X11_scoped_package_directory_witness :
  extractPackageName "/project/node_modules/@vue/shared" = Some "@vue_shared" ∧
  extractPackageName "/project/node_modules/@vue/" = Some "@vue_" ∧
  extractPackageName "/project/node_modules/@vue" = Some "@vue".
Proof.
  destruct (X11_scoped_package_directory_key "/project/" "vue" "shared") as [H1 H2];
    [done..|].
  destruct (X11_scoped_package_directory_key "/project/" "vue" "") as [H3 _];
    [done..|].
  split; [exact H1|]. split; [exact H3|exact H2].
Defined.

(** ** The shape of the URLs *)

Lemma normalize_absolute path :
  JS.startsWith "/" path = true → JS.startsWith "/" (Path.normalize path) = true.
Proof.
  intros Habs. unfold Path.normalize. rewrite Habs.
  destruct path as [|c path]; [done|]. cbn [String.eqb].
  destruct (String.eqb (Path.normalizeString _ _) ""); [done|].
  unfold JS.startsWith. apply prefix_app_self.
Qed.

Lemma join_fs_absolute id : JS.startsWith "/" (Path.join ["/@fs/"; id]) = true.
Proof.
  unfold Path.join. cbn [List.filter String.eqb negb].
  destruct (negb (String.eqb id "")); by apply normalize_absolute.
Qed.

Lemma getOptimizedUrl_absolute id : JS.startsWith "/" (getOptimizedUrl id) = true.
Proof.
  unfold getOptimizedUrl.
  destruct (JS.startsWith "/@id/" id) eqn:H1; cbn [orb].
  { unfold JS.startsWith in *. destruct (prefix_inv _ _ H1) as (t & ->). done. }
  destruct (JS.startsWith "/@fs/" id) eqn:H2; cbn [orb].
  { unfold JS.startsWith in *. destruct (prefix_inv _ _ H2) as (t & ->). done. }
  destruct (JS.startsWith "/node_modules/.vite/deps/" id) eqn:H3.
  { unfold JS.startsWith in *. destruct (prefix_inv _ _ H3) as (t & ->). done. }
  destruct (_ && _); [|apply join_fs_absolute].
  destruct (JS.truthy _); [done|apply join_fs_absolute].
Qed.

(** X12. Every URL the rewrite produces starts with a slash, whatever the
    identifier (a relative one or the empty one included); so does every
    asset [getDeps] returns in development mode. *)
Theorem X12_rewritten_urls_are_root_relative :
  (∀ id, JS.startsWith "/" (getOptimizedUrl id) = true) ∧
  (∀ manifestJson modules srv res warns u,
     getDeps manifestJson modules (Some srv) false = Some (res, warns) →
     u ∈ res → JS.startsWith "/" u = true).
Proof.
  split; [apply getOptimizedUrl_absolute|].
  intros manifestJson modules srv res warns u. rewrite getDeps_development.
  intros [= <- _]. rewrite set_from_elem, elem_of_flat_map.
  intros (e & _ & Hu). unfold entryAssets in Hu.
  destruct (collectDepsDev _ _ _) as [[seen|?]|]; try by apply elem_of_nil in Hu.
  apply list_elem_of_fmap in Hu as (k & -> & _). apply getOptimizedUrl_absolute.
Qed.

(** * Further properties of the orchestrator *)

(** ** The scaffold *)

(** X13. On a file system that takes the writes, [createViteEnvironment]
    leaves the directory [./.vite] with the five scaffold files, their
    contents being functions of the two module lists alone; it touches no
    other file and removes no directory; and what an earlier call wrote is
    overwritten: after two calls the files are those of the second call
    alone. *)
Theorem X13_createViteEnvironment_overwrites_the_scaffold server1 client1 server2 client2 w :
  let w1 := (createViteEnvironment server1 client1 w).2 in
  let w2 := (createViteEnvironment server2 client2 w1).2 in
  (createViteEnvironment server1 client1 w).1 = Ok tt ∧
  files w1 !! "./.vite/vite.config.js" = Some "export default {}" ∧
  files w1 !! "./.vite/index.html" = Some indexHtml ∧
  files w1 !! "./.vite/client.ts" = Some clientTs ∧
  files w1 !! "./.vite/clientPlugins.ts" = Some (clientPluginsTs client1) ∧
  files w1 !! "./.vite/server.ts" = Some (serverTs server1) ∧
  (∀ p, p ∉ ["./.vite/vite.config.js"; "./.vite/index.html"; "./.vite/client.ts";
             "./.vite/clientPlugins.ts"; "./.vite/server.ts"] →
        files w1 !! p = files w !! p) ∧
  dirs w1 = {["./.vite"]} ∪ dirs w ∧
  files w2 = files (createViteEnvironment server2 client2 w).2 ∧
  dirs w2 = dirs (createViteEnvironment server2 client2 w).2.
Proof.
  cbn [createViteEnvironment bind modify emit fst snd files dirs set_fs add_event].
  assert (viteDir +:+ "/server.ts" = "./.vite/server.ts") as -> by done.
  assert (viteDir +:+ "/clientPlugins.ts" = "./.vite/clientPlugins.ts") as -> by done.
  assert (viteDir +:+ "/client.ts" = "./.vite/client.ts") as -> by done.
  assert (viteDir +:+ "/index.html" = "./.vite/index.html") as -> by done.
  assert (viteDir +:+ "/vite.config.js" = "./.vite/vite.config.js") as -> by done.
  assert (viteDir = "./.vite") as -> by done.
  split; [done|].
  do 5 (split; [by simplify_map_eq|]).
  split; [|split; [done|split]].
  - intros p Hp. rewrite !lookup_insert_ne; [done|intros <-; apply Hp; set_solver..].
  - apply map_eq. intros p.
    repeat (rewrite lookup_insert; case_decide; [by subst; simplify_map_eq|]).
    done.
  - set_solver.
Qed.

Lemma moduleMap_names modules :
  map fst (moduleMap modules) = (fun i => "plugin" +:+ pretty i) <$> seq 0 (length modules).
Proof.
  unfold moduleMap. rewrite <- (imap_seq_0 modules (fun i => "plugin" +:+ pretty i)).
  change (map fst) with (fmap (M:=list) (@fst string string)).
  rewrite fmap_imap. by apply imap_ext.
Qed.

(** X14. The registries name the modules [plugin0], [plugin1], ... in the
    order of registration: the names are pairwise distinct, so that no
    module is lost when the names become the keys of an object, the modules
    are those registered, in their order, and a module registered twice is
    imported under two names. *)
Theorem X14_registry_names_are_distinct modules :
  NoDup (map fst (moduleMap modules)) ∧
  map snd (moduleMap modules) = modules ∧
  (∀ i p, modules !! i = Some p →
          moduleMap modules !! i = Some ("plugin" +:+ pretty i, p)).
Proof.
  split; [|split].
  - rewrite moduleMap_names. apply NoDup_fmap_2_strong; [|apply NoDup_seq].
    intros i j _ _ Hij. apply string_app_inj_l in Hij. by apply (inj pretty).
  - unfold moduleMap. change (map snd) with (fmap (M:=list) (@snd string string)).
    rewrite fmap_imap. etrans; [|apply list_fmap_id].
    rewrite <- imap_const. by apply imap_ext.
  - intros i p Hp. unfold moduleMap. by rewrite list_lookup_imap, Hp.
Qed.

Lemma X14_registry_names_witness :
  moduleMap ["example/a"; "example/a"] !! 1 = Some ("plugin1", "example/a") ∧
  serverTs ["example/a"; "example/a"] =
    "import plugin0 from 'example/a';" +:+ nl +:+
    "import plugin1 from 'example/a';" +:+ nl +:+ nl +:+
    "const getServerPlugins = () => [plugin0(), plugin1()];" +:+ nl +:+ nl +:+ nl +:+
    "export default getServerPlugins;".
Proof.
  destruct (X14_registry_names_are_distinct ["example/a"; "example/a"]) as (_ & _ & Hat).
  split; [by apply (Hat 1)|by vm_compute].
Defined.

(** ** Templates with missing or repeated tokens *)

(** X15. A template that holds the head token but no body token after it
    does not make the templating routine raise: the body is put after the
    rest of the template, followed by the text [undefined]. *)
Theorem X15_template_without_body_token w url template p1 q head body :
  readTemplate w url = Ok template →
  first_split "<!--app-head-->" template p1 q →
  JS.includes "<!--app-head-->" q = false →
  JS.includes "<!--app-html-->" q = false →
  internalGenerateHTMLTemplate w url head body
  = Ok (p1 +:+ head +:+ q +:+ body +:+ "undefined") ∧
  generateHTMLTemplate w url head body
  = Ok (p1 +:+ (baselineHead +:+ head) +:+ q +:+ body +:+ "undefined").
Proof.
  intros Htemplate Hhead Hq Hbody.
  assert (∀ hd0, internalGenerateHTMLTemplate w url hd0 body
                 = Ok (p1 +:+ hd0 +:+ q +:+ body +:+ "undefined")) as Hint.
  { intros hd0. unfold internalGenerateHTMLTemplate, assemble. rewrite Htemplate.
    rewrite (split_first _ _ _ _ _ Hhead), (split_none _ _ Hq).
    cbn [hd lookup list_lookup]. by rewrite (split_none _ _ Hbody). }
  split; [apply Hint|apply Hint].
Qed.

Lemma X15_template_without_body_token_witness :
  internalGenerateHTMLTemplate (Sample.cachedWorld "<html><!--app-head--></html>")
    "/" "<title>t</title>" "<p>b</p>"
  = Ok "<html><title>t</title></html><p>b</p>undefined".
Proof.
  destruct (X15_template_without_body_token
              (Sample.cachedWorld "<html><!--app-head--></html>") "/"
              "<html><!--app-head--></html>" "<html>" "</html>"
              "<title>t</title>" "<p>b</p>") as [Hint _]; [by vm_compute..|].
  rewrite Hint. by vm_compute.
Defined.

(** X16. Only the first head token and the first body token after it
    count.  With a second body token, the template is cut before it; with a
    second head token, the template is cut before it as well, and the body
    token is looked for between the two head tokens only. *)
Theorem X16_only_the_first_tokens_count w url template head body :
  readTemplate w url = Ok template →
  (∀ p1 q p2 u p3 p4,
     first_split "<!--app-head-->" template p1 q →
     JS.includes "<!--app-head-->" q = false →
     first_split "<!--app-html-->" q p2 u →
     first_split "<!--app-html-->" u p3 p4 →
     internalGenerateHTMLTemplate w url head body
     = Ok (p1 +:+ head +:+ p2 +:+ body +:+ p3)) ∧
  (∀ p1 u q r p2 p3,
     first_split "<!--app-head-->" template p1 u →
     first_split "<!--app-head-->" u q r →
     first_split "<!--app-html-->" q p2 p3 →
     JS.includes "<!--app-html-->" p3 = false →
     internalGenerateHTMLTemplate w url head body
     = Ok (p1 +:+ head +:+ p2 +:+ body +:+ p3)).
Proof.
  intros Htemplate. unfold internalGenerateHTMLTemplate, assemble. rewrite Htemplate.
  split.
  - intros p1 q p2 u p3 p4 Hhead Hq Hbody Hbody2.
    rewrite (split_first _ _ _ _ _ Hhead), (split_none _ _ Hq).
    cbn [hd lookup list_lookup].
    by rewrite (split_first _ _ _ _ _ Hbody), (split_first _ _ _ _ _ Hbody2).
  - intros p1 u q r p2 p3 Hhead Hhead2 Hbody Hp3.
    rewrite (split_first _ _ _ _ _ Hhead), (split_first _ _ _ _ _ Hhead2).
    cbn [hd lookup list_lookup].
    by rewrite (split_first _ _ _ _ _ Hbody), (split_none _ _ Hp3).
Qed.

Lemma X16_only_the_first_tokens_witness :
  internalGenerateHTMLTemplate
    (Sample.cachedWorld "<a><!--app-head--><b><!--app-html--><c><!--app-html--><d>")
    "/" "H" "B"
  = Ok "<a>H<b>B<c>" ∧
  internalGenerateHTMLTemplate
    (Sample.cachedWorld "<a><!--app-head--><b><!--app-html--><c><!--app-head--><d>")
    "/" "H" "B"
  = Ok "<a>H<b>B<c>".
Proof.
  split.
  - destruct (X16_only_the_first_tokens_count
                (Sample.cachedWorld
                   "<a><!--app-head--><b><!--app-html--><c><!--app-html--><d>")
                "/" "<a><!--app-head--><b><!--app-html--><c><!--app-html--><d>" "H" "B")
      as [Hbody _]; [by vm_compute|].
    rewrite (Hbody "<a>" "<b><!--app-html--><c><!--app-html--><d>" "<b>"
                   "<c><!--app-html--><d>" "<c>" "<d>"); by vm_compute.
  - destruct (X16_only_the_first_tokens_count
                (Sample.cachedWorld
                   "<a><!--app-head--><b><!--app-html--><c><!--app-head--><d>")
                "/" "<a><!--app-head--><b><!--app-html--><c><!--app-head--><d>" "H" "B")
      as [_ Hhead]; [by vm_compute|].
    rewrite (Hhead "<a>" "<b><!--app-html--><c><!--app-head--><d>" "<b><!--app-html--><c>"
                   "<d>" "<b>" "<c>"); by vm_compute.
Defined.

(** ** Head content of shells without a head element *)

(** X28. [generateHeadContent] looks for [<head>] and [</head>] in the
    shell templated with empty head and body.  Without [<head>] the call
    raises a [TypeError]; with [<head>] and no [</head>] after it, the call
    returns everything after [<head>]. *)
Theorem X28_head_content_needs_the_head_element w html :
  internalGenerateHTMLTemplate w "/" "" "" = Ok html →
  (JS.includes "<head>" html = false →
   generateHeadContent w =
   Throw (TypeError "Cannot read properties of undefined (reading 'split')")) ∧
  (∀ before rest,
     first_split "<head>" html before rest →
     JS.includes "<head>" rest = false →
     JS.includes "</head>" rest = false →
     generateHeadContent w = Ok rest).
Proof.
  intros Hhtml. unfold generateHeadContent, headSpan. rewrite Hhtml. split.
  - intros Hnone. by rewrite (split_none _ _ Hnone).
  - intros before rest Hopen Hnone Hclose.
    rewrite (split_first _ _ _ _ _ Hopen), (split_none _ _ Hnone).
    cbn [lookup list_lookup]. by rewrite (split_none _ _ Hclose).
Qed.

Lemma X28_head_content_witness :
  generateHTMLTemplate (Sample.cachedWorld "<html><!--app-head--><!--app-html--></html>")
    "/" "" "<p>b</p>"
  = Ok ("<html>" +:+ baselineHead +:+ "<p>b</p></html>") ∧
  generateHeadContent (Sample.cachedWorld "<html><!--app-head--><!--app-html--></html>")
  = Throw (TypeError "Cannot read properties of undefined (reading 'split')") ∧
  generateHeadContent (Sample.cachedWorld "<head><!--app-head--><!--app-html-->")
  = Ok "".
Proof.
  split; [by vm_compute|]. split.
  - destruct (X28_head_content_needs_the_head_element
                (Sample.cachedWorld "<html><!--app-head--><!--app-html--></html>")
                "<html></html>") as [Hraise _]; [by vm_compute|].
    by apply Hraise.
  - destruct (X28_head_content_needs_the_head_element
                (Sample.cachedWorld "<head><!--app-head--><!--app-html-->")
                "<head>") as [_ Hrest]; [by vm_compute|].
    apply (Hrest "" ""); by vm_compute.
Defined.

(** ** What the steps of the orchestrator leave alone *)

Section Frames.

Context {T : Type} (view : World → T).









Hypothesis view_plugins : ∀ f w, view (set_plugins f w) = view w.
Hypothesis view_heap : ∀ f w, view (set_heap f w) = view w.
Hypothesis view_nextRef : ∀ n w, view (set_nextRef n w) = view w.
Hypothesis view_init : ∀ r w, view (add_event (EvInit r) w) = view w.
Hypothesis view_postInit : ∀ r w, view (add_event (EvPostInit r) w) = view w.




End Frames.




(** ** The port handed to the plugins *)

Lemma lookupAll_app w (rs1 rs2 : list Ref) :
  lookupAll w (rs1 ++ rs2) = lookupAll w rs1 ++ lookupAll w rs2.
Proof. unfold lookupAll. apply omap_app. Qed.

Lemma lookupAll_elem w (rs : list Ref) r p :
  (r, p) ∈ lookupAll w rs ↔ r ∈ rs ∧ heap w !! r = Some p.
Proof.
  unfold lookupAll. rewrite list_elem_of_omap. split.
  - intros (r' & Hr' & Hp). destruct (heap w !! r') as [p'|] eqn:Hlook; [|done].
    injection Hp as <- <-. done.
  - intros [Hr Hp]. exists r. by rewrite Hp.
Qed.

Lemma find_none_iff {A} (f : A → bool) (l : list A) :
  List.find f l = None ↔ ∀ x, x ∈ l → f x = false.
Proof.
  induction l as [|a l IH]; cbn [List.find].
  - split; [by intros _ x ?%elem_of_nil|done].
  - destruct (f a) eqn:Ha.
    + split; [done|]. intros Hall. rewrite (Hall a) in Ha by left. done.
    + rewrite IH. split.
      * intros Hall x [->|Hx]%elem_of_cons; [done|by apply Hall].
      * intros Hall x Hx. apply Hall. by right.
Qed.

Lemma find_first {A} (f : A → bool) (l1 l2 : list A) a :
  (∀ x, x ∈ l1 → f x = false) → f a = true → List.find f (l1 ++ a :: l2) = Some a.
Proof.
  intros Hl1 Ha. induction l1 as [|b l1 IH]; cbn [app List.find].
  - by rewrite Ha.
  - rewrite (Hl1 b) by left. apply IH. intros x Hx. apply Hl1. by right.
Qed.

(** X17. [initExpress] returns and only fixes the port handed to the
    plugins: the port of the first plugin of the list whose name is
    [express], zero included, and 5173 when that plugin has no port or when
    no plugin has that name. *)
Theorem X17_port_of_the_first_express_plugin w :
  (initExpress w).1 = Ok tt ∧
  plugins (initExpress w).2 = plugins w ∧
  heap (initExpress w).2 = heap w ∧
  trace (initExpress w).2 = trace w ∧
  vite (initExpress w).2 = vite w ∧
  isProduction (initExpress w).2 = isProduction w ∧
  ((∀ r p, r ∈ plugins w → heap w !! r = Some p → name p ≠ "express") →
   initVite_port (initExpress w).2 = Some 5173%N) ∧
  (∀ before r p after,
     plugins w = before ++ r :: after →
     heap w !! r = Some p →
     name p = "express" →
     (∀ r' p', r' ∈ before → heap w !! r' = Some p' → name p' ≠ "express") →
     initVite_port (initExpress w).2 = Some (default 5173%N (port p))).
Proof.
  unfold initExpress, modify. cbn [fst snd]. do 6 (split; [done|]). split.
  - intros Hnone. cbn [initVite_port set_initVite_port].
    assert (List.find (fun rp : Ref * Plugin => String.eqb (name rp.2) "express")
              (lookupAll w (plugins w)) = None) as ->; [|done].
    apply find_none_iff. intros [r p] [Hr Hp]%lookupAll_elem.
    apply String.eqb_neq. by apply (Hnone r).
  - intros before r p after Hlist Hp Hname Hbefore.
    cbn [initVite_port set_initVite_port]. rewrite Hlist, lookupAll_app.
    assert (lookupAll w (r :: after) = (r, p) :: lookupAll w after) as ->.
    { unfold lookupAll. cbn [omap list_omap]. by rewrite Hp. }
    rewrite (find_first _ _ _ (r, p)); [done| |by apply String.eqb_eq].
    intros [r' p'] [Hr' Hp']%lookupAll_elem. apply String.eqb_neq. by apply (Hbefore r').
Qed.

Lemma X17_port_witness :
  initVite_port (initExpress (Sample.world "development")).2 = Some 3000%N ∧
  initVite_port (initExpress (Sample.worldOf "development" [Sample.boot])).2
  = Some 5173%N.
Proof.
  split.
  - destruct (X17_port_of_the_first_express_plugin (Sample.world "development"))
      as (_ & _ & _ & _ & _ & _ & _ & Hfirst).
    apply (Hfirst [] 0 Sample.express [1]); [by vm_compute..|].
    intros r' p' Hr'. by apply elem_of_nil in Hr'.
  - destruct (X17_port_of_the_first_express_plugin
                (Sample.worldOf "development" [Sample.boot]))
      as (_ & _ & _ & _ & _ & _ & Hnone & _).
    apply Hnone. intros r p Hr Hp. vm_compute in Hr.
    apply list_elem_of_singleton in Hr. subst r. vm_compute in Hp.
    by injection Hp as <-.
Defined.

(** ** Starting to serve *)

Lemma hookLoop_run (ev : Ref → Event) (hooks : list (Ref * HookOutcome)) :
  ∀ w r w', forEach hooks (fun rh => callHook (ev rh.1) rh.2) w = (r, w') →
    ∃ evs,
      w' = put (heap w) (trace w ++ evs) w ∧
      evs `prefix_of` hookCalls ev hooks ∧
      (r = Ok tt → evs = hookCalls ev hooks).
Proof.
  induction hooks as [|[r0 out] hooks IH]; intros w r w'; simpl.
  - intros [= <- <-]. exists []. by rewrite app_nil_r, put_id.
  - unfold bind at 1, callHook, bind at 1, emit, modify.
    destruct out as [e|]; simpl.
    + intros [= <- <-]. exists [ev r0]. split; [done|].
      split; [by apply list.prefix_cons, prefix_nil|done].
    + intros Hrest. apply IH in Hrest as (evs & -> & Hpre & Hok).
      exists (ev r0 :: evs). cbn [trace add_event heap]. rewrite <- app_assoc.
      split; [done|]. split; [by apply list.prefix_cons|].
      intros Hr. by rewrite (Hok Hr).
Qed.


(** The steps of [postInitExpress] after the restart of the server. *)
Lemma serve_tail (initViteHooks postInitViteHooks : list (Ref * HookOutcome)) w2 res w' :
  (emit EvAppUseRouter ;;;
   modify (fun w =>
     set_templateHtmlPromise
       (if isProduction w
        then Some (readFilePromise w "./.vite/dist/client/index.html")
        else None) w) ;;;
   forEach initViteHooks (fun rh => callHook (EvInitVite rh.1) rh.2) ;;;
   forEach postInitViteHooks (fun rh => callHook (EvPostInitVite rh.1) rh.2)) w2
  = (res, w') →
  ∃ calls,
    w' = put (heap w2) (trace w2 ++ [EvAppUseRouter] ++ calls)
           (set_templateHtmlPromise
              (if isProduction w2
               then Some (readFilePromise w2 "./.vite/dist/client/index.html")
               else None) w2) ∧
    calls `prefix_of` hookCalls EvInitVite initViteHooks ++
                      hookCalls EvPostInitVite postInitViteHooks ∧
    (res = Ok tt →
     calls = hookCalls EvInitVite initViteHooks ++
             hookCalls EvPostInitVite postInitViteHooks).
Proof.
  unfold bind at 1, emit at 1, modify at 1. unfold bind at 1, modify at 1.
  intros [([] & w3 & H1 & H2)|(e & H1 & ->)]%bind_inv;
    apply hookLoop_run in H1 as (evs1 & -> & Hpre1 & Hok1).
  - apply hookLoop_run in H2 as (evs2 & -> & Hpre2 & Hok2).
    rewrite (Hok1 eq_refl) in *. exists (hookCalls EvInitVite initViteHooks ++ evs2).
    cbn [trace heap put add_event set_templateHtmlPromise isProduction].
    rewrite <- !app_assoc. split; [done|]. split; [by apply prefix_app|].
    intros Hres. by rewrite (Hok2 Hres).
  - exists evs1. cbn [trace heap put add_event set_templateHtmlPromise isProduction].
    rewrite <- !app_assoc. split; [done|]. split; [by apply prefix_app_r|done].
Qed.

Lemma restartServer_dev h hooks w r w2 :
  isProduction w = false →
  restartServer h (Some hooks) w = (r, w2) →
  match getViteDevConfig hooks with
  | Throw e => r = Throw e ∧ w2 = w
  | Ok c =>
      match createServer h (config c) with
      | Throw e =>
          r = Throw e ∧
          w2 = add_event (EvCreateServer (config c))
                 (createViteEnvironment (serverPluginModules c) (clientPluginModules c) w).2
      | Ok srv => reloadPlugins h (devReady c srv w) = (r, w2)
      end
  end.
Proof.
  intros Hprod. unfold restartServer, bind at 1, get. rewrite Hprod. cbn [negb].
  unfold devReady.
  destruct (getViteDevConfig hooks) as [c|e].
  - unfold bind at 1, bind at 1, lift at 1.
    unfold bind at 1, createViteEnvironment at 1, bind at 1, modify at 1, emit at 1,
      modify at 1.
    unfold bind at 1, emit at 1, modify at 1.
    unfold bind at 1, lift at 1.
    destruct (createServer h (config c)) as [srv|e].
    + unfold bind at 1, modify at 1. unfold emit at 1, modify at 1. done.
    + by intros [= <- <-].
  - unfold bind at 1, bind at 1, lift at 1. by intros [= <- <-].
Qed.


Lemma devReady_facts c srv w :
  trace (devReady c srv w) = trace w ++
    [EvMaterialize (serverPluginModules c) (clientPluginModules c);
     EvCreateServer (config c); EvRouterUse ViteMiddlewares] ∧
  vite (devReady c srv w) = Some srv ∧
  isProduction (devReady c srv w) = isProduction w ∧
  heap (devReady c srv w) = heap w ∧
  plugins (devReady c srv w) = plugins w ∧
  nextRef (devReady c srv w) = nextRef w ∧
  templateHtmlPromise (devReady c srv w) = templateHtmlPromise w.
Proof.
  unfold devReady.
  cbn [createViteEnvironment bind modify emit snd trace vite isProduction add_event
       set_vite set_fs heap plugins nextRef templateHtmlPromise].
  by rewrite <- !app_assoc.
Qed.








(** ** Which Vite hooks are called *)











(** ** Reloads that fail *)

(** X21. When loading the client registry or the server registry raises,
    the reload raises the same error after it has purged the plugin list:
    the instances of the previous reload are gone, no new instance is in
    the list, no hook was called, and the plugins of the host are as they
    were. *)
Theorem X21_failed_registry_load_leaves_the_list_purged h w e :
  registryOf h w "./.vite/dist/server/clientPlugins.js" "/clientPlugins.ts" = Throw e ∨
  (∃ clients,
     registryOf h w "./.vite/dist/server/clientPlugins.js" "/clientPlugins.ts"
     = Ok clients ∧
     registryOf h w "./.vite/dist/server/server.js" "/server.ts" = Throw e) →
  ∃ w',
    reloadPlugins h w = (Throw e, w') ∧
    plugins w' = filter (untagged (heap w)) (plugins w) ∧
    trace w' = trace w ∧
    (∀ r, r < nextRef w → heap w' !! r = heap w !! r).
Proof.
  intros Hfail. unfold reloadPlugins, bind at 1. rewrite purge_eq.
  set (w1 := set_plugins _ w).
  unfold bind at 1. rewrite loadRegistry_eq, (registryOf_env h w1 w) by done.
  destruct Hfail as [Hclient|(clients & Hclient & Hserver)]; rewrite Hclient.
  - by exists w1.
  - unfold bind at 1. rewrite allocAll_eq.
    set (w2 := set_nextRef _ _).
    unfold bind at 1. rewrite loadRegistry_eq, (registryOf_env h w2 w) by done.
    rewrite Hserver. exists w2. split; [done|]. split; [done|]. split; [done|].
    intros r Hr. cbn [w2 w1 heap set_nextRef set_heap set_plugins nextRef].
    by apply storeAll_lookup_lt.
Qed.

Lemma X21_failed_registry_load_witness :
  plugins (reloadPlugins (Sample.host false false) Sample.devWorld).2 = [0; 1; 2; 3; 4; 5] ∧
  ∃ w',
    reloadPlugins Sample.brokenHost
      (reloadPlugins (Sample.host false false) Sample.devWorld).2
    = (Throw (SyntaxError "/clientPlugins.ts"), w') ∧
    plugins w' = [0; 1].
Proof.
  split; [by vm_compute|].
  destruct (X21_failed_registry_load_leaves_the_list_purged
              Sample.brokenHost (reloadPlugins (Sample.host false false) Sample.devWorld).2
              (SyntaxError "/clientPlugins.ts"))
    as (w' & Hrun & Hplugins & _); [left; by vm_compute|].
  exists w'. split; [done|]. rewrite Hplugins. by vm_compute.
Defined.

(** ** Reloads that an [init] hook aborts *)

Lemma forEach_app {A} (xs ys : list A) (body : A → M unit) (k : M unit) w :
  (forEach xs body ;;; forEach ys body ;;; k) w = (forEach (xs ++ ys) body ;;; k) w.
Proof.
  revert w. induction xs as [|x xs IH]; intros w; [done|].
  cbn [app forEach]. unfold bind in *.
  destruct (body x w) as [[[]|e] w1]; [|done]. apply IH.
Qed.

Lemma init_alter (hp : gmap Ref Plugin) (r0 r : Ref) :
  alter setMarker r0 hp !! r ≫= init = hp !! r ≫= init.
Proof.
  rewrite lookup_alter. destruct (decide (r0 = r)) as [->|]; [|done].
  by destruct (hp !! r).
Qed.

(** The loop over the [init] hooks up to the first hook that raises: the
    instance of that hook is tagged, the instances after it are not
    reached. *)
Lemma initLoop_raises before r after e :
  ∀ w,
    (∀ r' e', r' ∈ before → heap w !! r' ≫= init ≠ Some (Some e')) →
    heap w !! r ≫= init = Some (Some e) →
    forEach (before ++ r :: after) initOne w =
    (Throw e,
     put (tagAll (before ++ [r]) (heap w))
         (trace w ++ hookEvents EvInit init (heap w) (before ++ [r])) w).
Proof.
  induction before as [|r0 before IH]; intros w Hbefore Hr.
  - cbn [app forEach]. unfold bind. rewrite initOne_eq, Hr. cbn zeta.
    rewrite (hookEvents_cons init). unfold hasHook.
    destruct (heap w !! r) as [p|]; [|done]. cbn in Hr. rewrite Hr. done.
  - cbn [app forEach]. unfold bind at 1. rewrite initOne_eq. cbn zeta.
    rewrite (hookEvents_cons init). unfold hasHook.
    assert (∀ w1, heap w1 = alter setMarker r0 (heap w) →
                  forEach (before ++ r :: after) initOne w1 =
                  (Throw e,
                   put (tagAll (before ++ [r]) (heap w1))
                       (trace w1 ++ hookEvents EvInit init (heap w) (before ++ [r])) w1))
      as Hrest.
    { intros w1 Hw1. rewrite IH.
      - do 3 f_equal. apply hookEvents_ext.
        intros r'. rewrite Hw1. by apply hasHook_alter.
      - intros r' e' Hr'. rewrite Hw1, init_alter. apply Hbefore. by right.
      - by rewrite Hw1, init_alter. }
    destruct (heap w !! r0) as [p|] eqn:Hp; cbn [mbind option_bind].
    + destruct (init p) as [[e0|]|] eqn:Hi.
      * destruct (Hbefore r0 e0); [by left|]. by rewrite Hp.
      * rewrite Hrest by done. rewrite put_add_event, put_set_heap.
        cbn [trace heap add_event set_heap present app]. by rewrite <- app_assoc.
      * rewrite Hrest by done. by rewrite put_set_heap.
    + rewrite Hrest by done. by rewrite put_set_heap.
Qed.

Lemma freshHeap_new_elem h w r :
  r ∈ clientRefs h w ++ serverRefs h w →
  ∃ p, freshHeap h w !! r = Some p ∧ p ∈ newClients h w ++ newServers h w.
Proof.
  unfold clientRefs, serverRefs, freshHeap.
  rewrite elem_of_app, !elem_of_seq. intros [[Hlo Hhi]|[Hlo Hhi]].
  - rewrite storeAll_lookup_lt by lia.
    replace r with (nextRef w + (r - nextRef w)) by lia.
    rewrite storeAll_lookup_new by lia.
    destruct (lookup_lt_is_Some_2 (newClients h w) (r - nextRef w)) as [p Hp]; [lia|].
    exists p. split; [done|]. apply elem_of_app. left. by eapply list_elem_of_lookup_2.
  - replace r with (nextRef w + length (newClients h w)
                    + (r - (nextRef w + length (newClients h w)))) by lia.
    rewrite storeAll_lookup_new by lia.
    destruct (lookup_lt_is_Some_2 (newServers h w)
                (r - (nextRef w + length (newClients h w)))) as [p Hp]; [lia|].
    exists p. split; [done|]. apply elem_of_app. right. by eapply list_elem_of_lookup_2.
Qed.

(** X29. A reload in which an [init] hook raises: when both registries
    load and the [init] hook of the new instance [r] is the first one to
    raise, the reload raises its error after the [init] hooks up to that
    one were called and no other hook.  All the new instances are in the
    plugin list by then; those up to [r] carry the marker, [r] included,
    and those after [r] do not (unless the registry handed them out with
    it), so that the purge of the next reload leaves them in the list. *)
Theorem X29_raising_init_hook_leaves_untagged_instances
    h w clients servers before r after e :
  registryOf h w "./.vite/dist/server/clientPlugins.js" "/clientPlugins.ts" = Ok clients →
  registryOf h w "./.vite/dist/server/server.js" "/server.ts" = Ok servers →
  clientRefs h w ++ serverRefs h w = before ++ r :: after →
  (∀ r' e', r' ∈ before → freshHeap h w !! r' ≫= init ≠ Some (Some e')) →
  freshHeap h w !! r ≫= init = Some (Some e) →
  ∃ w',
    reloadPlugins h w = (Throw e, w') ∧
    plugins w' = filter (untagged (heap w)) (plugins w) ++ before ++ r :: after ∧
    heap w' = tagAll (before ++ [r]) (freshHeap h w) ∧
    trace w' = trace w ++ hookEvents EvInit init (freshHeap h w) (before ++ [r]) ∧
    (∀ r', r' ∈ before ++ [r] → tagged (heap w') r' = true) ∧
    ((∀ p, p ∈ clients ++ servers → _vitePlugin p = false) →
     ∀ r', r' ∈ after →
           tagged (heap w') r' = false ∧
           r' ∈ filter (untagged (heap w')) (plugins w')).
Proof.
  intros Hclients Hservers Hgen Hbefore Hr.
  assert (newClients h w = clients) as Hnc by (unfold newClients; by rewrite Hclients).
  assert (newServers h w = servers) as Hns
    by (unfold newServers; by rewrite Hclients, Hservers).
  assert (NoDup (before ++ r :: after)) as Hnd.
  { rewrite <- Hgen. unfold clientRefs, serverRefs. rewrite <- seq_app. apply NoDup_seq. }
  assert (∀ r', r' ∈ before ++ [r] → r' ∈ clientRefs h w ++ serverRefs h w) as Hin.
  { intros r' Hr'. rewrite Hgen. set_solver. }
  assert (@app Ref (seq (nextRef w) (length clients))
                   (seq (nextRef w + length clients) (length servers))
          = before ++ r :: after) as Hseq.
  { rewrite <- Hgen. unfold clientRefs, serverRefs. by rewrite Hnc, Hns. }
  eexists. split.
  { unfold reloadPlugins. unfold bind at 1. rewrite purge_eq.
    set (w1 := set_plugins _ w).
    unfold bind at 1. rewrite loadRegistry_eq, (registryOf_env h w1 w) by done.
    rewrite Hclients. unfold bind at 1. rewrite allocAll_eq.
    set (w2 := set_nextRef _ _).
    unfold bind at 1. rewrite loadRegistry_eq, (registryOf_env h w2 w) by done.
    rewrite Hservers. unfold bind at 1. rewrite allocAll_eq.
    set (w3 := set_nextRef _ _).
    unfold bind at 1, modify at 1. unfold bind at 1, modify at 1.
    set (w4 := set_plugins _ (set_plugins _ w3)).
    rewrite forEach_app.
    change (seq (nextRef w1) (length clients) ++ seq (nextRef w2) (length servers))
      with (@app Ref (seq (nextRef w) (length clients))
                     (seq (nextRef w + length clients) (length servers))).
    rewrite Hseq.
    assert (heap w4 = freshHeap h w) as Hheap.
    { unfold freshHeap. by rewrite Hnc, Hns. }
    unfold bind at 1. rewrite (initLoop_raises before r after e w4);
      rewrite ?Hheap; [reflexivity|done..]. }
  cbn [plugins heap trace nextRef put set_plugins set_nextRef set_heap].
  rewrite <- !app_assoc, !Hseq.
  assert (∀ r', r' ∈ before ++ [r] →
                tagged (tagAll (before ++ [r]) (freshHeap h w)) r' = true) as Htagged.
  { intros r' Hr'. apply tagAll_tags; [done|].
    by apply freshHeap_lookup_new, Hin. }
  do 4 (split; [done|]).
  intros Hplain r' Hr'.
  assert (r' ∉ before ++ [r]) as Hnot.
  { intros Hboth. apply NoDup_app in Hnd as (_ & Hdisj & Hnd').
    apply NoDup_cons in Hnd' as [Hr1 _].
    apply elem_of_app in Hboth as [Hb|Hb].
    - apply (Hdisj r' Hb). by right.
    - apply list_elem_of_singleton in Hb. by subst. }
  assert (tagged (tagAll (before ++ [r]) (freshHeap h w)) r' = false) as Hfalse.
  { unfold tagged. rewrite tagAll_lookup_notin by done.
    destruct (freshHeap_new_elem h w r') as (p & -> & Hp).
    { rewrite Hgen. set_solver. }
    apply Hplain. by rewrite <- Hnc, <- Hns. }
  split; [done|]. apply list_elem_of_filter. split; [done|]. set_solver.
Qed.

Lemma X29_raising_init_hook_witness :
  ∃ w',
    reloadPlugins Sample.failingHost Sample.devWorld = (Throw (Thrown "init failed"), w') ∧
    plugins w' = [0; 1; 2; 3; 4; 5] ∧
    filter (untagged (heap w')) (plugins w') = [0; 1; 3; 4; 5].
Proof.
  destruct (X29_raising_init_hook_leaves_untagged_instances
              Sample.failingHost Sample.devWorld
              [Sample.instance "/clientPlugins.ts" (Some (Some (Thrown "init failed"))) None;
               Sample.instance "/clientPlugins.ts" (Some None) (Some None)]
              [Sample.instance "/server.ts" (Some (Some (Thrown "init failed"))) None;
               Sample.instance "/server.ts" (Some None) (Some None)]
              [] 2 [3; 4; 5] (Thrown "init failed"))
    as (w' & Hrun & Hplugins & Hheap & _); [by vm_compute..| |by vm_compute|].
  { intros r' e' Hr'. by apply elem_of_nil in Hr'. }
  exists w'. split; [done|]. split; [rewrite Hplugins; by vm_compute|].
  rewrite Hplugins, Hheap. by vm_compute.
Defined.

(** ** Start-ups that fail *)

Lemma applyHooks_app hooks1 hooks2 c :
  applyHooks (hooks1 ++ hooks2) c =
  match applyHooks hooks1 c with
  | Ok c1 => applyHooks hooks2 c1
  | Throw e => Throw e
  end.
Proof.
  revert c. induction hooks1 as [|hook hooks1 IH]; intros c; [done|].
  cbn [app applyHooks]. by destruct (hook c).
Qed.

(** X22. The configuration hooks are applied in the order of the list,
    each to what the one before returned, and the first one that raises
    ends the fold with its error.  When the fold raises, [postInitExpress]
    raises the same error before it has done anything: with the build flag
    and in a development start-up alike, no file is written, no bundler is
    called and the world is as it was. *)
Theorem X22_raising_configuration_hook_stops_the_startup h w e :
  (∀ hooks1 hook hooks2 c c1,
     applyHooks hooks1 c = Ok c1 → hook c1 = Throw e →
     applyHooks (hooks1 ++ hook :: hooks2) c = Throw e) ∧
  (args_build h = true →
   getViteProdConfig false (configureViteHooks w) = Throw e →
   postInitExpress h w = (Throw e, w)) ∧
  (args_build h = false → args_preview h = false → isProduction w = false →
   getViteDevConfig (configureViteHooks w) = Throw e →
   postInitExpress h w = (Throw e, w)).
Proof.
  split; [|split].
  - intros hooks1 hook hooks2 c c1 H1 Hhook. rewrite applyHooks_app, H1.
    cbn [applyHooks]. by rewrite Hhook.
  - intros Hbuild Hconfig. unfold postInitExpress, bind at 1, get. rewrite Hbuild.
    unfold bind at 1, lift at 1. by rewrite Hconfig.
  - intros Hbuild Hpreview Hprod Hconfig.
    unfold postInitExpress, bind at 1, get. rewrite Hbuild, Hpreview.
    unfold bind at 1, ret at 1. unfold bind at 1.
    destruct (restartServer h (Some (configureViteHooks w)) w) as [r w2] eqn:Hrestart.
    apply (restartServer_dev _ _ _ _ _ Hprod) in Hrestart. rewrite Hconfig in Hrestart.
    by destruct Hrestart as [-> ->].
Qed.

Lemma X22_raising_configuration_hook_witness :
  postInitExpress (Sample.host false false)
    (Sample.worldOf "development" [Sample.express; Sample.refusing; Sample.boot])
  = (Throw (Thrown "no configuration"),
     Sample.worldOf "development" [Sample.express; Sample.refusing; Sample.boot]) ∧
  postInitExpress (Sample.host true false)
    (Sample.worldOf "development" [Sample.express; Sample.refusing; Sample.boot])
  = (Throw (Thrown "no configuration"),
     Sample.worldOf "development" [Sample.express; Sample.refusing; Sample.boot]).
Proof.
  destruct (X22_raising_configuration_hook_stops_the_startup
              (Sample.host false false)
              (Sample.worldOf "development" [Sample.express; Sample.refusing; Sample.boot])
              (Thrown "no configuration")) as (_ & _ & Hdev).
  destruct (X22_raising_configuration_hook_stops_the_startup
              (Sample.host true false)
              (Sample.worldOf "development" [Sample.express; Sample.refusing; Sample.boot])
              (Thrown "no configuration")) as (_ & Hbuild & _).
  split; [apply Hdev|apply Hbuild]; by vm_compute.
Defined.

(** X23. With the build flag, a build that raises ends [postInitExpress]
    with its error: when the first build raises, the second configuration
    is not computed and the second build is not started; in either case the
    stop callback is not called. *)
Theorem X23_failed_build_does_not_stop_the_host h w viteConfig e :
  args_build h = true →
  getViteProdConfig false (configureViteHooks w) = Ok viteConfig →
  (build h (config viteConfig) = Throw e →
   ∃ w', postInitExpress h w = (Throw e, w') ∧
         trace w' = trace w ++
           [EvMaterialize (serverPluginModules viteConfig) (clientPluginModules viteConfig);
            EvBuild (config viteConfig)]) ∧
  (∀ viteConfigSSR,
     build h (config viteConfig) = Ok tt →
     getViteProdConfig true (configureViteHooks w) = Ok viteConfigSSR →
     build h (config viteConfigSSR) = Throw e →
     ∃ w', postInitExpress h w = (Throw e, w') ∧
           trace w' = trace w ++
             [EvMaterialize (serverPluginModules viteConfig)
                (clientPluginModules viteConfig);
              EvBuild (config viteConfig);
              EvMaterialize (serverPluginModules viteConfigSSR)
                (clientPluginModules viteConfigSSR);
              EvBuild (config viteConfigSSR)]).
Proof.
  intros Hbuild Hconfig.
  assert (∃ w1,
            trace w1 = trace w ++
              [EvMaterialize (serverPluginModules viteConfig)
                 (clientPluginModules viteConfig);
               EvBuild (config viteConfig)] ∧
            postInitExpress h w =
            match build h (config viteConfig) with
            | Throw e' => (Throw e', w1)
            | Ok _ =>
                (viteConfigSSR <- lift (getViteProdConfig true (configureViteHooks w)) ;;
                 createViteEnvironment (serverPluginModules viteConfigSSR)
                                       (clientPluginModules viteConfigSSR) ;;;
                 runBuild h (config viteConfigSSR) ;;;
                 emit EvStop) w1
            end) as (w1 & Htrace1 & ->).
  { eexists. split; [|].
    2:{ unfold postInitExpress, bind at 1, get. rewrite Hbuild.
        unfold bind at 1, lift at 1. rewrite Hconfig.
        unfold bind at 1, createViteEnvironment at 1, bind at 1, modify at 1, emit at 1,
          modify at 1.
        unfold bind at 1, runBuild at 1, bind at 1, emit at 1, modify at 1, lift at 1.
        reflexivity. }
    cbn [trace add_event set_fs]. by rewrite <- !app_assoc. }
  split.
  - intros ->. by exists w1.
  - intros viteConfigSSR -> Hssr Hfail.
    unfold bind at 1, lift at 1. rewrite Hssr.
    unfold bind at 1, createViteEnvironment at 1, bind at 1, modify at 1, emit at 1,
      modify at 1.
    unfold bind at 1, runBuild at 1, bind at 1, emit at 1, modify at 1, lift at 1.
    rewrite Hfail. eexists. split; [reflexivity|].
    cbn [trace add_event set_fs]. rewrite Htrace1. by rewrite <- !app_assoc.
Qed.

Lemma X23_failed_build_witness :
  ∃ w',
    postInitExpress Sample.failingBuildHost (Sample.world "development")
    = (Throw (Thrown "build failed"), w') ∧
    trace w' = [EvMaterialize ["example/server"] ["example/client"];
                EvBuild (config (prodConfig false))].
Proof.
  destruct (X23_failed_build_does_not_stop_the_host
              Sample.failingBuildHost (Sample.world "development")
              {| config := config (prodConfig false);
                 clientPluginModules := ["example/client"];
                 serverPluginModules := ["example/server"] |}
              (Thrown "build failed")) as [Hfirst _]; [by vm_compute..|].
  destruct Hfirst as (w' & Hrun & Htrace); [by vm_compute|].
  exists w'. split; [done|]. rewrite Htrace. by vm_compute.
Defined.

(** ** Registering the plugin *)

Lemma deref_elem hp (rs : list Ref) r p :
  (r, p) ∈ deref hp rs ↔ r ∈ rs ∧ hp !! r = Some p.
Proof.
  unfold deref. rewrite list_elem_of_omap. split.
  - intros (r' & Hr' & Hp). destruct (hp !! r') as [p'|] eqn:Hlook; [|done].
    injection Hp as <- <-. done.
  - intros [Hr Hp]. exists r. by rewrite Hp.
Qed.

Lemma find_vite_none hp (rs : list Ref) :
  List.find (fun rp : Ref * Plugin => String.eqb (name rp.2) "vite") (deref hp rs) = None ↔
  ∀ r p, r ∈ rs → hp !! r = Some p → name p ≠ "vite".
Proof.
  rewrite find_none_iff. split.
  - intros Hall r p Hr Hp. apply String.eqb_neq. apply (Hall (r, p)). by apply deref_elem.
  - intros Hall [r p] [Hr Hp]%deref_elem. apply String.eqb_neq. by apply (Hall r).
Qed.

(** X24. [injectVite] registers the plugin once.  On an array that holds
    a plugin named [vite] it does nothing.  Otherwise it creates the
    plugin, pushes it at the end of the array and initializes it with the
    array, which then is the plugin list of the closure, the new plugin
    included.  In either case the array holds a plugin named [vite]
    afterwards, so that a second call does nothing. *)
Theorem X24_injectVite_registers_the_plugin_once NODE_ENV plugins0 hp next ds fs :
  let once := injectVite NODE_ENV plugins0 hp next ds fs in
  let twice :=
    injectVite NODE_ENV (inj_plugins once) (inj_heap once) (inj_nextRef once) ds fs in
  ((∃ r p, r ∈ plugins0 ∧ hp !! r = Some p ∧ name p = "vite") →
   inj_plugins once = plugins0 ∧ inj_heap once = hp ∧ inj_nextRef once = next ∧
   inj_closure once = None) ∧
  ((∀ r p, r ∈ plugins0 → hp !! r = Some p → name p ≠ "vite") →
   inj_plugins once = plugins0 ++ [next] ∧
   inj_heap once !! next = Some vitePluginObject ∧
   ∃ closure,
     inj_closure once = Some closure ∧
     plugins closure = inj_plugins once ∧
     heap closure = inj_heap once ∧
     isProduction closure = String.eqb NODE_ENV "production" ∧
     vite closure = None ∧
     relevantPlugins closure =
       filter (fun rp => pluginHasViteHooks rp.2 = true) (deref (inj_heap once) plugins0)) ∧
  (∃ r p, r ∈ inj_plugins once ∧ inj_heap once !! r = Some p ∧ name p = "vite") ∧
  inj_plugins twice = inj_plugins once ∧
  inj_heap twice = inj_heap once ∧
  inj_nextRef twice = inj_nextRef once ∧
  inj_closure twice = None.
Proof.
  intros once twice.
  assert ((∃ r p, r ∈ plugins0 ∧ hp !! r = Some p ∧ name p = "vite") →
          once = {| inj_plugins := plugins0; inj_heap := hp; inj_nextRef := next;
                    inj_closure := None |}) as Hfound.
  { intros (r & p & Hr & Hp & Hname). unfold once, injectVite.
    destruct (List.find _ (deref hp plugins0)) eqn:Hfind; [done|].
    by destruct (proj1 (find_vite_none _ _) Hfind r p). }
  assert ((∀ r p, r ∈ plugins0 → hp !! r = Some p → name p ≠ "vite") →
          once = {| inj_plugins := plugins0 ++ [next];
                    inj_heap := <[next := vitePluginObject]> hp;
                    inj_nextRef := S next;
                    inj_closure :=
                      Some (init_ (plugins0 ++ [next])
                              (vitePlugin NODE_ENV (<[next := vitePluginObject]> hp)
                                          (S next) ds fs)).2 |}) as Hnew.
  { intros Hnone. apply find_vite_none in Hnone. unfold once, injectVite.
    by rewrite Hnone. }
  assert (∃ r p, r ∈ inj_plugins once ∧ inj_heap once !! r = Some p ∧ name p = "vite")
    as Hafter.
  { destruct (List.find (fun rp : Ref * Plugin => String.eqb (name rp.2) "vite")
                (deref hp plugins0)) as [[r p]|] eqn:Hfind.
    - pose proof Hfind as Hin. apply find_some in Hin as [Hin Hname].
      apply list_elem_of_In, deref_elem in Hin as [Hr Hp].
      apply String.eqb_eq in Hname. cbn in Hname.
      rewrite Hfound by (by exists r, p). by exists r, p.
    - rewrite (Hnew (proj1 (find_vite_none _ _) Hfind)).
      exists next, vitePluginObject. cbn [inj_plugins inj_heap].
      split; [set_solver|]. split; [apply lookup_insert_eq|done]. }
  split; [|split; [|split]].
  - intros Hin. by rewrite (Hfound Hin).
  - intros Hnone. rewrite (Hnew Hnone). cbn [inj_plugins inj_heap inj_closure].
    split; [done|]. split; [apply lookup_insert_eq|].
    eexists. split; [reflexivity|].
    cbn [init_ modify snd plugins heap isProduction vite set_plugins vitePlugin].
    do 4 (split; [done|]).
    unfold relevantPlugins, lookupAll.
    cbn [plugins heap set_plugins vitePlugin]. fold (deref (<[next:=vitePluginObject]> hp)).
    unfold deref at 1. rewrite omap_app. cbn [omap list_omap].
    rewrite lookup_insert_eq. cbn [app]. rewrite filter_app.
    rewrite filter_cons_False by done. by rewrite filter_nil, app_nil_r.
  - done.
  - fold once in Hfound. unfold twice.
    assert (injectVite NODE_ENV (inj_plugins once) (inj_heap once) (inj_nextRef once) ds fs
            = {| inj_plugins := inj_plugins once; inj_heap := inj_heap once;
                 inj_nextRef := inj_nextRef once; inj_closure := None |}) as ->; [|done].
    destruct Hafter as (r & p & Hr & Hp & Hname). unfold injectVite.
    destruct (List.find _ (deref (inj_heap once) (inj_plugins once))) eqn:Hfind; [done|].
    by destruct (proj1 (find_vite_none _ _) Hfind r p).
Qed.

Lemma X24_injectVite_witness :
  inj_plugins (injectVite "development" [0; 1] (<[0 := Sample.express]> (<[1 := Sample.boot]> ∅))
                 2 ∅ ∅)
  = [0; 1; 2] ∧
  inj_plugins
    (injectVite "development" [0; 1; 2]
       (<[2 := vitePluginObject]> (<[0 := Sample.express]> (<[1 := Sample.boot]> ∅)))
       3 ∅ ∅)
  = [0; 1; 2].
Proof.
  destruct (X24_injectVite_registers_the_plugin_once
              "development" [0; 1] (<[0 := Sample.express]> (<[1 := Sample.boot]> ∅)) 2 ∅ ∅)
    as (_ & Hnew & _ & Htwice & _).
  destruct Hnew as (Hplugins & _).
  { intros r p Hr Hp.
    apply elem_of_cons in Hr as [->|Hr]; [vm_compute in Hp; by injection Hp as <-|].
    apply list_elem_of_singleton in Hr. subst r. vm_compute in Hp. by injection Hp as <-. }
  split; [exact Hplugins|].
  etrans; [|exact Hplugins]. etrans; [|exact Htwice]. by vm_compute.
Defined.

(** ** The resolver and the templates after a development start-up *)

(** X25. After a development start-up that returned, the [getDeps] handed
    to the plugins traverses the module graph of the server the start-up
    created: it resolves as the resolver does in development mode with that
    server, whatever the manifest holds. *)
Theorem X25_development_getDeps_uses_the_created_server h w w' :
  args_build h = false →
  args_preview h = false →
  isProduction w = false →
  postInitExpress h w = (Ok tt, w') →
  ∃ viteConfig srv,
    getViteDevConfig (configureViteHooks w) = Ok viteConfig ∧
    createServer h (config viteConfig) = Ok srv ∧
    ∀ pm modules,
      initVite_getDeps pm w' modules = getDeps ∅ modules (Some srv) false ∧
      initVite_getDeps pm w' modules =
      Some (set_from (flat_map (entryAssets (moduleGraph srv))
                        (map normalizeModule modules)),
            flat_map (entryWarnings (moduleGraph srv)) (map normalizeModule modules)).
Proof.
  intros Hbuild Hpreview Hprod.
  unfold postInitExpress, bind at 1, get. rewrite Hbuild, Hpreview.
  unfold bind at 1, ret at 1.
  intros [([] & w2 & Hrestart & Htail)|(e & _ & [=])]%bind_inv.
  apply (restartServer_dev _ _ _ _ _ Hprod) in Hrestart.
  destruct (getViteDevConfig (configureViteHooks w)) as [c|e]; [|by destruct Hrestart].
  destruct (createServer h (config c)) as [srv|e] eqn:Hsrv; [|by destruct Hrestart].
  exists c, srv. split; [done|]. split; [done|].
  apply reloadPlugins_run in Hrestart as (_ & _ & _ & Hvite & _).
  apply serve_tail in Htail as (calls & -> & _).
  destruct (devReady_facts c srv w) as (_ & Hv & _).
  intros pm modules. unfold initVite_getDeps. cbn [vite put set_templateHtmlPromise].
  rewrite Hvite, Hv, !getDeps_development. done.
Qed.

Lemma X25_development_getDeps_witness :
  initVite_getDeps {| pm_manifestJson := {["/A" := ["a.js"]]}; pm_warnings := [] |}
    Sample.servedWorld ["/A"]
  = Some (["/@fs/A"; "/@fs/B"; "/@fs/C"], []).
Proof.
  destruct (X25_development_getDeps_uses_the_created_server
              (Sample.host false false) (initExpress (Sample.world "development")).2
              Sample.servedWorld)
    as (viteConfig & srv & _ & Hsrv & Hdeps); [by vm_compute..|].
  destruct (Hdeps {| pm_manifestJson := {["/A" := ["a.js"]]}; pm_warnings := [] |} ["/A"])
    as [-> _].
  vm_compute in Hsrv. injection Hsrv as <-. by vm_compute.
Defined.

(** X26. The shell [createViteEnvironment] writes holds the head token
    once and the body token once after it.  So with a development server
    that returns the shell as it is, the templates are the shell with the
    baseline tags and the caller's head at the head token and the caller's
    body at the body token, and the head content is the text between
    [<head>] and [</head>] of the shell without the token. *)
Theorem X26_scaffold_shell_round_trip w srv :
  vite w = Some srv →
  files w !! "./.vite/index.html" = Some indexHtml →
  (∀ url, transformIndexHtml srv url indexHtml = Ok indexHtml) →
  indexHtml =
    (Sample.shellBeforeHead +:+ "<head>" +:+ Sample.shellHeadBeforeToken) +:+
    "<!--app-head-->" +:+
    (Sample.shellHeadAfterToken +:+ "</head>" +:+ Sample.shellBodyBeforeToken) +:+
    "<!--app-html-->" +:+ Sample.shellAfterBodyToken ∧
  (∀ url head body,
     generateHTMLTemplate w url head body =
     Ok ((Sample.shellBeforeHead +:+ "<head>" +:+ Sample.shellHeadBeforeToken) +:+
         (baselineHead +:+ head) +:+
         (Sample.shellHeadAfterToken +:+ "</head>" +:+ Sample.shellBodyBeforeToken) +:+
         body +:+ Sample.shellAfterBodyToken)) ∧
  generateHeadContent w = Ok (Sample.shellHeadBeforeToken +:+ Sample.shellHeadAfterToken).
Proof.
  intros Hvite Hfile Hsame.
  assert (∀ url, readTemplate w url = Ok indexHtml) as Htemplate.
  { intros url. unfold readTemplate. by rewrite Hvite, Hfile. }
  assert (∀ url head body,
            internalGenerateHTMLTemplate w url head body =
            Ok ((Sample.shellBeforeHead +:+ "<head>" +:+ Sample.shellHeadBeforeToken) +:+
                head +:+
                (Sample.shellHeadAfterToken +:+ "</head>" +:+ Sample.shellBodyBeforeToken)
                +:+ body +:+ Sample.shellAfterBodyToken)) as Hint.
  { intros url head body. unfold internalGenerateHTMLTemplate. rewrite Htemplate.
    apply (assemble_tokens indexHtml _
             (Sample.shellHeadAfterToken +:+ "</head>" +:+ Sample.shellBodyBeforeToken
              +:+ "<!--app-html-->" +:+ Sample.shellAfterBodyToken));
      by vm_compute. }
  split; [by vm_compute|]. split.
  - intros url head body. unfold generateHTMLTemplate. apply Hint.
  - unfold generateHeadContent. rewrite Hint.
    apply (headSpan_first _ Sample.shellBeforeHead
             (Sample.shellHeadBeforeToken +:+ Sample.shellHeadAfterToken)
             (Sample.shellBodyBeforeToken +:+ Sample.shellAfterBodyToken));
      by vm_compute.
Qed.

Lemma X26_scaffold_shell_witness :
  generateHTMLTemplate Sample.servedWorld "/" "<title>t</title>" "<p>b</p>" =
  Ok ((Sample.shellBeforeHead +:+ "<head>" +:+ Sample.shellHeadBeforeToken) +:+
      (baselineHead +:+ "<title>t</title>") +:+
      (Sample.shellHeadAfterToken +:+ "</head>" +:+ Sample.shellBodyBeforeToken) +:+
      "<p>b</p>" +:+ Sample.shellAfterBodyToken).
Proof.
  destruct (X26_scaffold_shell_round_trip Sample.servedWorld (Sample.server Sample.cyclic))
    as (_ & Htemplate & _); [by vm_compute..|].
  apply Htemplate.
Defined.
